(** * paramico_ssh_shell: a shallow embedding of the SSH shell client

    The development follows [paramico_ssh_shell.py]:
    - [PyStr] models the three [str] builtins the module relies on
      ([str.strip], [str.splitlines], [str.join]) on sequences of
      Unicode code points, and the free function [parse_cmd_output];
    - [Runtime] is the small state-and-exception monad in which the
      methods run: the object the method mutates, the remote world
      (what paramiko will answer) and the tree of effects performed;
    - [SSHConnection] and [ShellInterface] are the two classes.  The
      console loop [ShellInterface.interact] reads standard input and is
      left out; [session] stands for the script's entry point. *)

From Stdlib Require Import List NArith ZArith QArith Bool Lia.
From Stdlib Require Import Strings.String Strings.Ascii Numbers.DecimalString.
Import ListNotations.
Close Scope Q_scope.

Set Implicit Arguments.

(* ===================================================================== *)
(** ** Python strings *)
(* ===================================================================== *)

Module PyStr.

(** A Python [str] is a sequence of Unicode code points. *)
Local Open Scope N_scope.

Definition codepoint := N.
Definition str := list codepoint.

(** ASCII literals of the source, as [str]. *)
Fixpoint lit (s : string) : str :=
  match s with
  | EmptyString => []
  | String a s' => N_of_ascii a :: lit s'
  end.

Definition LF : codepoint := 0x0A.
Definition CR : codepoint := 0x0D.

Definition between (lo hi c : codepoint) : bool := (lo <=? c) && (c <=? hi).

(** [str.isspace] on one code point: the characters [str.strip()]
    removes when called without argument. *)
Definition isspace (c : codepoint) : bool :=
  between 0x09 0x0D c || between 0x1C 0x20 c
  || (c =? 0x85) || (c =? 0xA0) || (c =? 0x1680)
  || between 0x2000 0x200A c
  || (c =? 0x2028) || (c =? 0x2029) || (c =? 0x202F)
  || (c =? 0x205F) || (c =? 0x3000).

(** The line boundaries of [str.splitlines]. *)
Definition is_linebreak (c : codepoint) : bool :=
  between 0x0A 0x0D c || between 0x1C 0x1E c
  || (c =? 0x85) || (c =? 0x2028) || (c =? 0x2029).

(** Truth value of a [str] in a condition: non-empty. *)
Definition truthy (s : str) : bool :=
  match s with [] => false | _ :: _ => true end.

(** [s.lstrip()], [s.rstrip()], [s.strip()]. *)
Fixpoint lstrip (s : str) : str :=
  match s with
  | [] => []
  | c :: s' => if isspace c then lstrip s' else s
  end.

Definition rstrip (s : str) : str := rev (lstrip (rev s)).

Definition strip (s : str) : str := rstrip (lstrip s).

(** [s.splitlines()].  [cur] is the line being scanned.  A boundary
    closes the current line (which may be empty); [\r\n] counts as one
    boundary; text after the last boundary is a line only when it is
    not empty. *)
Fixpoint splitlines_from (cur : str) (s : str) : list str :=
  match s with
  | [] => if truthy cur then [cur] else []
  | c :: rest =>
      if is_linebreak c then
        match rest with
        | c' :: rest' =>
            if ((c =? CR) && (c' =? LF))
            then cur :: splitlines_from [] rest'
            else cur :: splitlines_from [] rest
        | [] => cur :: splitlines_from [] rest
        end
      else splitlines_from (cur ++ [c]) rest
  end.

Definition splitlines (s : str) : list str := splitlines_from [] s.

(** [sep.join(items)]. *)
Fixpoint join (sep : str) (items : list str) : str :=
  match items with
  | [] => []
  | [x] => x
  | x :: rest => x ++ sep ++ join sep rest
  end.

(** [[line.strip() for line in output.splitlines() if line.strip()]] *)
Definition parse_cmd_output (output : str) : list str :=
  flat_map (fun line => if truthy (strip line) then [strip line] else [])
           (splitlines output).

(** Vocabulary of the statements. *)
Definition first_is_space (s : str) : bool :=
  match s with [] => false | c :: _ => isspace c end.

Definition last_is_space (s : str) : bool := first_is_space (rev s).

Definition blank (s : str) : bool := forallb isspace s.

(** An entry is clean when it is not empty and neither starts nor ends
    with whitespace. *)
Definition clean (s : str) : bool :=
  truthy s && negb (first_is_space s) && negb (last_is_space s).

(** No line boundary occurs in [s]. *)
Definition no_break (s : str) : bool :=
  forallb (fun c => negb (is_linebreak c)) s.

(** An entry that re-parsing leaves alone: not empty, free of line
    boundaries, and clean. *)
Definition settled (e : str) : bool :=
  truthy e && no_break e && clean e.

End PyStr.

Import PyStr.

(* ===================================================================== *)
(** ** The runtime: exceptions, the remote world, effects *)
(* ===================================================================== *)

Module Runtime.

(** Exception classes that occur.  [LibraryError] stands for any other
    class derived from [Exception] that paramiko or the socket layer
    raises ([AuthenticationException], [SSHException], [socket.timeout],
    ...).  Every exception of the model derives from [Exception], which
    is what the [except Exception] clauses of the source catch. *)
Inductive exn_class :=
  | ConnectionError
  | RuntimeError
  | AttributeError
  | ValueError
  | OverflowError
  | LibraryError (name : string).

(** An exception object; [exn_msg e] is [str(e)]. *)
Record exn := Exn { exn_cls : exn_class; exn_msg : str }.

(** The two paramiko objects the connection holds, by identity. *)
Inductive SSHClient := Client (id : nat).
Inductive Channel := Chan (id : nat).

(** A received payload, represented by the text that
    [.decode(errors='ignore')] yields for it. *)
Inductive bytes := Bytes (text : str).

Definition decode_ignore (b : bytes) : str :=
  match b with Bytes text => text end.

(** Calls into paramiko. *)
Inductive lib_call :=
  | NewSSHClient (c : SSHClient)
  | SetMissingHostKeyPolicy (c : SSHClient)
  | ClientConnect (c : SSHClient) (hostname : str) (port : Z)
                  (username password : str) (look_for_keys : bool)
  | InvokeShell (c : SSHClient)
  | ChannelSend (ch : Channel) (s : str)
  | ChannelRecvReady (ch : Channel) (answer : bool)
  | ChannelRecv (ch : Channel) (nbytes : Z)
  | ChannelClose (ch : Channel)
  | ClientClose (c : SSHClient).

Inductive method :=
  | M_connect | M_reconnect | M_flush_buffer | M_send_command | M_disconnect.

(** What an execution does, in order.  A method call made by the code
    appears as one [Call] node holding the effects of the callee and
    whether it returned normally ([true]) or raised ([false]). *)
#[warnings="-register-all"]
Inductive event :=
  | Lib (op : lib_call) (ok : bool)
  | Sleep (seconds : Q)
  | Print (line : str)
  | Call (m : method) (inner : list event) (ok : bool).

(** The remote side, as a finite script of what paramiko will do next.
    - [faults]: one entry per call that paramiko documents as raising
      ([SSHClient.connect], [invoke_shell], [Channel.send],
      [Channel.recv]); [Some e] makes that call raise [e]; past the end
      of the script calls succeed.  [close], [recv_ready], the
      constructor and the host-key policy setter do not raise.
    - [readies]: the successive answers of [Channel.recv_ready]; past
      the end the channel has nothing to read.
    - [chunks]: the successive payloads of [Channel.recv]; past the end
      the payload is empty.
    - [next_id]: identity of the next object created. *)
Record World := mkWorld {
  faults : list (option exn);
  readies : list bool;
  chunks : list bytes;
  next_id : nat
}.

Inductive result (A : Type) :=
  | Return (a : A)
  | Raise (e : exn).
Arguments Raise {A} e.

Definition returned {A} (r : result A) : bool :=
  match r with Return _ => true | Raise _ => false end.

(** Running a computation on object [self] in world [w]: its result,
    the object and the world afterwards (mutations survive a raise),
    and the effects performed. *)
Record Outcome (T A : Type) := mkOutcome {
  res : result A;
  obj : T;
  world : World;
  trace : list event
}.

Definition M (T A : Type) := T -> World -> Outcome T A.

Definition ret {T A} (a : A) : M T A :=
  fun self w => mkOutcome (Return a) self w [].

Definition raise {T A} (e : exn) : M T A :=
  fun self w => mkOutcome (Raise e) self w [].

Definition bind {T A B} (m : M T A) (k : A -> M T B) : M T B :=
  fun self w =>
    match m self w with
    | mkOutcome (Return a) self1 w1 t1 =>
        match k a self1 w1 with
        | mkOutcome r self2 w2 t2 => mkOutcome r self2 w2 (t1 ++ t2)
        end
    | mkOutcome (Raise e) self1 w1 t1 => mkOutcome (Raise e) self1 w1 t1
    end.

Declare Scope py_scope.
Delimit Scope py_scope with py.
Notation "x <- c ;; k" := (bind c (fun x => k))
  (at level 61, c at next level, right associativity) : py_scope.
Notation "c ;; k" := (bind c (fun _ => k))
  (at level 61, right associativity) : py_scope.
Local Open Scope py_scope.

(** [try: body  except Exception as e: handler e] *)
Definition try_except {T A} (body : M T A) (handler : exn -> M T A) : M T A :=
  fun self w =>
    match body self w with
    | mkOutcome (Return a) self1 w1 t1 => mkOutcome (Return a) self1 w1 t1
    | mkOutcome (Raise e) self1 w1 t1 =>
        match handler e self1 w1 with
        | mkOutcome r self2 w2 t2 => mkOutcome r self2 w2 (t1 ++ t2)
        end
    end.

Definition get {T} : M T T :=
  fun self w => mkOutcome (Return self) self w [].

Definition put {T} (self' : T) : M T unit :=
  fun _ w => mkOutcome (Return tt) self' w [].

Definition emit {T} (e : event) : M T unit :=
  fun self w => mkOutcome (Return tt) self w [e].

(** A method call [self.m(...)]: the callee's effects become one node. *)
Definition call {T A} (m : method) (body : M T A) : M T A :=
  fun self w =>
    match body self w with
    | mkOutcome r self1 w1 t1 => mkOutcome r self1 w1 [Call m t1 (returned r)]
    end.

(** [for x in items: body x], where the body either falls through to
    the next iteration ([None]) or executes [return v] ([Some v]). *)
Fixpoint for_in {T A R} (items : list A) (body : A -> M T (option R))
  : M T (option R) :=
  match items with
  | [] => ret None
  | x :: rest =>
      r <- body x ;;
      match r with
      | Some v => ret (Some v)
      | None => for_in rest body
      end
  end.

(** [range(lo, hi)] *)
Definition range (lo hi : Z) : list Z :=
  map (fun i => (lo + Z.of_nat i)%Z) (seq 0 (Z.to_nat (hi - lo))).

(** [str(n)] for an [int]. *)
Definition str_of_int (n : Z) : str :=
  lit (DecimalString.NilZero.string_of_int (Z.to_int n)).

(** [time.sleep(seconds)] converts the length to a signed 64-bit count
    of nanoseconds: a length that does not fit is refused with
    [OverflowError], a negative one with [ValueError], both before any
    sleeping. *)
Definition sleep_limit : Q := 9223372036854775807 # 1000000000.
Definition sleep_floor : Q := (-9223372036854775808) # 1000000000.

Definition sleep_negative : exn :=
  Exn ValueError (lit "sleep length must be non-negative").

Definition sleep_too_large : exn :=
  Exn OverflowError (lit "timestamp too large to convert to C _PyTime_t").

Definition sleepable (seconds : Q) : bool :=
  Qle_bool 0 seconds && Qle_bool seconds sleep_limit.

Definition sleep_error (seconds : Q) : exn :=
  if Qle_bool sleep_floor seconds && Qle_bool seconds sleep_limit
  then sleep_negative
  else sleep_too_large.

Definition sleep {T} (seconds : Q) : M T unit :=
  if sleepable seconds then emit (Sleep seconds)
  else raise (sleep_error seconds).

(** [print(line)] *)
Definition print {T} (line : str) : M T unit := emit (Print line).

(** *** paramiko *)

(** Consume one entry of the fault script on behalf of call [op]. *)
Definition fallible {T} (op : lib_call) : M T unit :=
  fun self w =>
    match faults w with
    | Some e :: rest =>
        mkOutcome (Raise e) self
          (mkWorld rest (readies w) (chunks w) (next_id w)) [Lib op false]
    | None :: rest =>
        mkOutcome (Return tt) self
          (mkWorld rest (readies w) (chunks w) (next_id w)) [Lib op true]
    | [] => mkOutcome (Return tt) self w [Lib op true]
    end.

Definition fresh_id {T} : M T nat :=
  fun self w =>
    mkOutcome (Return (next_id w)) self
      (mkWorld (faults w) (readies w) (chunks w) (S (next_id w))) [].

(** [paramiko.SSHClient()] *)
Definition paramiko_SSHClient {T} : M T SSHClient :=
  n <- fresh_id ;;
  emit (Lib (NewSSHClient (Client n)) true) ;;
  ret (Client n).

(** [client.set_missing_host_key_policy(paramiko.AutoAddPolicy())] *)
Definition set_missing_host_key_policy {T} (c : SSHClient) : M T unit :=
  emit (Lib (SetMissingHostKeyPolicy c) true).

(** [client.connect(hostname=, port=, username=, password=, look_for_keys=)] *)
Definition client_connect {T} (c : SSHClient) (hostname : str) (port : Z)
    (username password : str) (look_for_keys : bool) : M T unit :=
  fallible (ClientConnect c hostname port username password look_for_keys).

(** [client.invoke_shell()] *)
Definition invoke_shell {T} (c : SSHClient) : M T Channel :=
  fallible (InvokeShell c) ;;
  n <- fresh_id ;;
  ret (Chan n).

(** [client.close()], [channel.close()] *)
Definition client_close {T} (c : SSHClient) : M T unit :=
  emit (Lib (ClientClose c) true).
Definition channel_close {T} (ch : Channel) : M T unit :=
  emit (Lib (ChannelClose ch) true).

(** [channel.send(s)] *)
Definition channel_send {T} (ch : Channel) (s : str) : M T unit :=
  fallible (ChannelSend ch s).

(** [channel.recv_ready()] answering [answer], the rest of the script
    being [rest]. *)
Definition answer_recv_ready {T} (ch : Channel) (answer : bool)
    (rest : list bool) : M T bool :=
  fun self w =>
    mkOutcome (Return answer) self
      (mkWorld (faults w) rest (chunks w) (next_id w))
      [Lib (ChannelRecvReady ch answer) true].

(** [channel.recv_ready()] *)
Definition recv_ready {T} (ch : Channel) : M T bool :=
  fun self w =>
    match readies w with
    | [] => answer_recv_ready ch false [] self w
    | b :: rest => answer_recv_ready ch b rest self w
    end.

Definition next_chunk {T} : M T bytes :=
  fun self w =>
    match chunks w with
    | [] => mkOutcome (Return (Bytes [])) self w []
    | b :: rest =>
        mkOutcome (Return b) self
          (mkWorld (faults w) (readies w) rest (next_id w)) []
    end.

(** [channel.recv(nbytes)] *)
Definition channel_recv {T} (ch : Channel) (nbytes : Z) : M T bytes :=
  fallible (ChannelRecv ch nbytes) ;;
  next_chunk.

End Runtime.

Import Runtime.
Local Open Scope py_scope.

(* ===================================================================== *)
(** ** class SSHConnection *)
(* ===================================================================== *)

Record SSHConnection := mkSSHConnection {
  host : str;
  username : str;
  password : str;
  port : Z;
  buffer_size : Z;
  _ssh_client : option SSHClient;
  _shell : option Channel
}.

(** [SSHConnection.__init__] *)
Definition SSHConnection_init (host username password : str)
    (port buffer_size : Z) : SSHConnection :=
  mkSSHConnection host username password port buffer_size None None.

Definition default_port : Z := 22.
Definition default_buffer_size : Z := 4096.

(** [self._ssh_client = v], [self._shell = v] *)
Definition set_ssh_client (v : option SSHClient) : M SSHConnection unit :=
  self <- get ;;
  put (mkSSHConnection (host self) (username self) (password self)
         (port self) (buffer_size self) v (_shell self)).

Definition set_shell (v : option Channel) : M SSHConnection unit :=
  self <- get ;;
  put (mkSSHConnection (host self) (username self) (password self)
         (port self) (buffer_size self) (_ssh_client self) v).

(** [self._ssh_client.<attr>] and [self._shell.<attr>]: attribute access
    on [None] raises [AttributeError]. *)
Definition no_attribute (attr : string) : exn :=
  Exn AttributeError
      (lit "'NoneType' object has no attribute '" ++ lit attr ++ lit "'").

Definition ssh_client_attr (attr : string) : M SSHConnection SSHClient :=
  self <- get ;;
  match _ssh_client self with
  | Some c => ret c
  | None => raise (no_attribute attr)
  end.

Definition shell_attr (attr : string) : M SSHConnection Channel :=
  self <- get ;;
  match _shell self with
  | Some ch => ret ch
  | None => raise (no_attribute attr)
  end.

(** [is_connected] (a property) *)
Definition is_connected (self : SSHConnection) : bool :=
  match _ssh_client self, _shell self with
  | Some _, Some _ => true
  | _, _ => false
  end.

(** [_flush_buffer] *)
Definition _flush_buffer : M SSHConnection unit :=
  self <- get ;;
  match _shell self with
  | None => ret tt
  | Some ch =>
      ready <- recv_ready ch ;;
      if ready : bool then
        _ <- channel_recv ch (buffer_size self) ;; ret tt
      else ret tt
  end.

(** [connect] *)
Definition connect_try (disable_pagination : bool) : M SSHConnection unit :=
  c <- paramiko_SSHClient ;;
  set_ssh_client (Some c) ;;
  c <- ssh_client_attr "set_missing_host_key_policy" ;;
  set_missing_host_key_policy c ;;
  c <- ssh_client_attr "connect" ;;
  self <- get ;;
  client_connect c (host self) (port self) (username self) (password self)
                 false ;;
  c <- ssh_client_attr "invoke_shell" ;;
  ch <- invoke_shell c ;;
  set_shell (Some ch) ;;
  sleep 1 ;;
  call M_flush_buffer _flush_buffer ;;
  if disable_pagination then
    ch <- shell_attr "send" ;;
    channel_send ch (lit "terminal length 0" ++ [LF]) ;;
    sleep 1
  else ret tt.

Definition connect_failed (e : exn) : exn :=
  Exn ConnectionError (lit "[!] SSH connection failed: " ++ exn_msg e).

Definition connect (disable_pagination : bool) : M SSHConnection unit :=
  try_except (connect_try disable_pagination)
             (fun e => raise (connect_failed e)).

(** [disconnect] *)
Definition disconnect : M SSHConnection unit :=
  self <- get ;;
  match _shell self with
  | Some ch => channel_close ch ;; set_shell None
  | None => ret tt
  end ;;
  self <- get ;;
  match _ssh_client self with
  | Some c => client_close c ;; set_ssh_client None
  | None => ret tt
  end.

(** [reconnect] *)
Definition reconnect_exhausted : exn :=
  Exn ConnectionError (lit "[!] Reconnection attempts exhausted.").

(** The lines [reconnect] prints. *)
Definition reconnecting_line (self : SSHConnection) : str :=
  lit "[*] Attempting to reconnect to " ++ host self ++ lit "...".

Definition reconnected_line (attempt : Z) : str :=
  lit "[+] Reconnected on attempt " ++ str_of_int attempt ++ lit ".".

Definition attempt_failed_line (attempt : Z) (e : exn) : str :=
  lit "[!] Attempt " ++ str_of_int attempt ++ lit " failed: " ++ exn_msg e.

Definition reconnect_attempt (retry_interval : Q) (attempt : Z)
  : M SSHConnection (option unit) :=
  try_except
    (call M_disconnect disconnect ;;
     call M_connect (connect false) ;;
     print (reconnected_line attempt) ;;
     ret (Some tt))
    (fun e =>
       print (attempt_failed_line attempt e) ;;
       sleep retry_interval ;;
       ret None).

Definition reconnect (retry_count : Z) (retry_interval : Q)
  : M SSHConnection unit :=
  self <- get ;;
  print (reconnecting_line self) ;;
  r <- for_in (range 1 (retry_count + 1)) (reconnect_attempt retry_interval) ;;
  match r with
  | Some v => ret v
  | None => raise reconnect_exhausted
  end.

Definition default_retry_count : Z := 3.
Definition default_retry_interval : Q := 2.

(** [send_command]: the receive loop.  [polls] is the script of
    [recv_ready] answers still to come. *)
Fixpoint recv_while_ready (polls : list bool) (ch : Channel) (nbytes : Z)
    (output : str) : M SSHConnection str :=
  match polls with
  | [] => _ <- answer_recv_ready ch false [] ;; ret output
  | false :: polls' => _ <- answer_recv_ready ch false polls' ;; ret output
  | true :: polls' =>
      _ <- answer_recv_ready ch true polls' ;;
      data <- channel_recv ch nbytes ;;
      sleep (1 # 10) ;;
      recv_while_ready polls' ch nbytes (output ++ decode_ignore data)
  end.

Definition not_active : exn :=
  Exn ConnectionError (lit "SSH connection is not active.").

(** [while self._shell.recv_ready(): output += self._shell.recv(...)
    .decode(errors='ignore'); time.sleep(0.1)] *)
Definition recv_loop (output : str) : M SSHConnection str :=
  fun self w =>
    match _shell self with
    | Some ch =>
        recv_while_ready (readies w) ch (buffer_size self) output self w
    | None => raise (no_attribute "recv_ready") self w
    end.

Definition send_command (command : str) (wait_time : Q)
  : M SSHConnection str :=
  self <- get ;;
  if negb (is_connected self) then raise not_active
  else
    ch <- shell_attr "send" ;;
    channel_send ch (command ++ [LF]) ;;
    sleep wait_time ;;
    output <- recv_loop [] ;;
    ret (strip output).

Definition default_wait_time : Q := 1.

(* ===================================================================== *)
(** ** class ShellInterface *)
(* ===================================================================== *)

Record ShellInterface := mkShellInterface {
  connection : SSHConnection;
  prompt : str
}.

(** A method of [self.connection] run from a method of the shell. *)
Definition on_connection {A} (m : M SSHConnection A) : M ShellInterface A :=
  fun self w =>
    match m (connection self) w with
    | mkOutcome r c1 w1 t1 =>
        mkOutcome r (mkShellInterface c1 (prompt self)) w1 t1
    end.

(** [_connect] *)
Definition _connect : M ShellInterface unit :=
  self <- get ;;
  if negb (is_connected (connection self))
  then on_connection (call M_connect (connect false))
  else ret tt.

(** [__init__] *)
Definition ShellInterface_init (connection : SSHConnection) (prompt : str)
  : World -> Outcome ShellInterface unit :=
  _connect (mkShellInterface connection prompt).

(** [__del__] *)
Definition ShellInterface_del : M ShellInterface unit :=
  on_connection (call M_disconnect disconnect).

(** [run_cmd] *)
Definition run_cmd_failed (retry_count : Z) : exn :=
  Exn RuntimeError
      (lit "[!] Failed to run command after '" ++ str_of_int retry_count
       ++ lit "' retries.").

Definition command_failed_line (e : exn) : str :=
  lit "[!] Command failed: " ++ exn_msg e.

Definition run_cmd_attempt (command : str) (attempt : Z)
  : M ShellInterface (option str) :=
  try_except
    (output <- on_connection
                 (call M_send_command (send_command command default_wait_time)) ;;
     ret (Some output))
    (fun e =>
       print (command_failed_line e) ;;
       let attempt := (attempt + 1)%Z in
       on_connection
         (call M_reconnect
               (reconnect default_retry_count default_retry_interval)) ;;
       ret None).

Definition run_cmd (command : str) (retry_count : Z) : M ShellInterface str :=
  let attempts := if (retry_count =? 0)%Z then 1%Z else retry_count in
  r <- for_in (range 0 attempts) (run_cmd_attempt command) ;;
  match r with
  | Some output => ret output
  | None => raise (run_cmd_failed retry_count)
  end.

(* ===================================================================== *)
(** ** Observations on effect traces *)
(* ===================================================================== *)

(** Outcomes of the calls of method [m] made directly by the traced
    code, in order. *)
Definition method_eqb (a b : method) : bool :=
  match a, b with
  | M_connect, M_connect | M_reconnect, M_reconnect
  | M_flush_buffer, M_flush_buffer | M_send_command, M_send_command
  | M_disconnect, M_disconnect => true
  | _, _ => false
  end.

Fixpoint calls_of (m : method) (t : list event) : list bool :=
  match t with
  | [] => []
  | Call m' _ ok :: t' =>
      if method_eqb m m' then ok :: calls_of m t' else calls_of m t'
  | _ :: t' => calls_of m t'
  end.

(** Durations of the sleeps made directly by the traced code. *)
Fixpoint sleeps_of (t : list event) : list Q :=
  match t with
  | [] => []
  | Sleep d :: t' => d :: sleeps_of t'
  | _ :: t' => sleeps_of t'
  end.

(** The first fault among the next [n] entries of a fault script. *)
Fixpoint first_fault (n : nat) (fs : list (option exn)) : option exn :=
  match n, fs with
  | S n', Some e :: _ => Some e
  | S n', None :: fs' => first_fault n' fs'
  | _, _ => None
  end.

(** Number of raising paramiko calls on the path of [connect] that
    returns: [SSHClient.connect], [invoke_shell], the [recv] of
    [_flush_buffer] when the channel is ready, and the [send] that
    disables pagination. *)
Definition connect_calls (disable_pagination : bool) (w : World) : nat :=
  2 + (if hd false (readies w) then 1 else 0)
    + (if disable_pagination then 1 else 0).

(** A computation that leaves the object it runs on as it found it. *)
Definition keeps_self {T A} (m : M T A) : Prop :=
  forall self w, obj (m self w) = self.

(** What [disconnect] does to paramiko in state [self]. *)
Definition disconnect_trace (self : SSHConnection) : list event :=
  match _shell self with
  | Some ch => [Lib (ChannelClose ch) true]
  | None => []
  end ++
  match _ssh_client self with
  | Some c => [Lib (ClientClose c) true]
  | None => []
  end.

(** [self] with both handles null. *)
Definition disconnected (self : SSHConnection) : SSHConnection :=
  mkSSHConnection (host self) (username self) (password self) (port self)
                  (buffer_size self) None None.

(** Number of iterations of the loop of [run_cmd]. *)
Definition run_cmd_attempts (retry_count : Z) : nat :=
  Z.to_nat (if (retry_count =? 0)%Z then 1%Z else retry_count).

(** Sample data: the connection of the script's entry point, a remote
    that answers every call, and a remote that refuses the next [n]
    raising calls. *)
Definition conn0 : SSHConnection :=
  SSHConnection_init (lit "192.168.2.184") (lit "testuser") (lit "12345")
                     default_port default_buffer_size.

Definition shell0 : ShellInterface := mkShellInterface conn0 (lit "$").

Definition auth_failure : exn :=
  Exn (LibraryError "AuthenticationException") (lit "Authentication failed.").

Definition quiet : World := mkWorld [] [] [] 0.

Definition refusing (n : nat) : World :=
  mkWorld (repeat (Some auth_failure) n) [] [] 0.

Definition send_timeout : exn :=
  Exn (LibraryError "socket.timeout") (lit "timed out").

(** The entry point's session against a remote with fault script [fs]:
    build the shell on [conn0], then [run_cmd("uname -a", retry_count)]. *)
Definition session (fs : list (option exn)) (retry_count : Z)
  : Outcome ShellInterface str :=
  match ShellInterface_init conn0 (lit "$") (mkWorld fs [] [] 0) with
  | mkOutcome _ shell w _ => run_cmd (lit "uname -a") retry_count shell w
  end.

(** A remote that accepts a connection and then lets the next [send]
    time out. *)
Definition flaky : World := mkWorld [None; None; Some send_timeout] [] [] 0.

(** The handle invariant of the data model: both null or both non-null. *)
Definition handles_inv (self : SSHConnection) : bool :=
  match _ssh_client self, _shell self with
  | None, None => true
  | Some _, Some _ => true
  | _, _ => false
  end.

(** *** The lines of a string *)

(** A boundary character [c] followed by [rest] is the first half of a
    [\r\n] pair. *)
Definition opens_crlf (c : codepoint) (rest : str) : bool :=
  (c =? CR)%N && match rest with c' :: _ => (c' =? LF)%N | [] => false end.

(** [lines_of s ls]: [ls] are the lines of [s].  Read from left to
    right, [s] is its lines in order, each followed by one line
    boundary, except that the last line may end the string; a boundary
    is [\r\n] taken together or any other boundary character alone; no
    line contains a boundary character; and an unterminated last line is
    not empty (so the empty string has no line, and a string ending in a
    boundary has no empty line after it). *)
Inductive lines_of : str -> list str -> Prop :=
  | lines_none : lines_of [] []
  | lines_last (l : str) :
      truthy l = true -> no_break l = true -> lines_of l [l]
  | lines_crlf (l rest : str) (ls : list str) :
      no_break l = true -> lines_of rest ls ->
      lines_of (l ++ CR :: LF :: rest) (l :: ls)
  | lines_break (l : str) (c : codepoint) (rest : str) (ls : list str) :
      no_break l = true -> is_linebreak c = true ->
      opens_crlf c rest = false -> lines_of rest ls ->
      lines_of (l ++ c :: rest) (l :: ls).

(** *** Further vocabulary *)

(** Strings handed to [Channel.send], in order, at any depth of the
    call tree. *)
Fixpoint sent_by (e : event) : list str :=
  match e with
  | Lib (ChannelSend _ s) _ => [s]
  | Call _ inner _ => flat_map sent_by inner
  | _ => []
  end.

Definition sent (t : list event) : list str := flat_map sent_by t.

(** Number of consecutive [True] answers at the head of a poll script:
    how many times a receive loop goes round. *)
Fixpoint leading_trues (rs : list bool) : nat :=
  match rs with
  | true :: rs' => S (leading_trues rs')
  | _ => 0
  end.

(** Text of the next [k] payloads of a chunk script (payloads past the
    end of the script are empty). *)
Fixpoint received (k : nat) (cs : list bytes) : str :=
  match k, cs with
  | S k', b :: cs' => decode_ignore b ++ received k' cs'
  | _, _ => []
  end.

(** The configuration fields of a connection. *)
Definition config (self : SSHConnection) : str * str * str * Z * Z :=
  (host self, username self, password self, port self, buffer_size self).

Definition is_some {A} (o : option A) : bool :=
  match o with Some _ => true | None => false end.

(** [_flush_buffer] reads: there is a shell and its first poll says
    ready. *)
Definition flush_reads (self : SSHConnection) (w : World) : bool :=
  is_some (_shell self) && hd false (readies w).

(** The connection of the entry point once connected, and a remote with
    two payloads waiting on the channel. *)
Definition connected0 : SSHConnection :=
  mkSSHConnection (lit "192.168.2.184") (lit "testuser") (lit "12345")
                  default_port default_buffer_size
                  (Some (Client 0)) (Some (Chan 1)).

Definition talkative : World :=
  mkWorld [] [true; true]
          [Bytes (lit " Linux"); Bytes (lit " box " ++ [CR; LF])] 2.

(** Clients created by [paramiko.SSHClient()] and clients closed by
    [SSHClient.close()], in order, at any depth of the call tree; and
    the client a connection holds. *)
Fixpoint opened_by (e : event) : list SSHClient :=
  match e with
  | Lib (NewSSHClient c) _ => [c]
  | Call _ inner _ => flat_map opened_by inner
  | _ => []
  end.

Definition opened (t : list event) : list SSHClient := flat_map opened_by t.

Fixpoint closed_by (e : event) : list SSHClient :=
  match e with
  | Lib (ClientClose c) _ => [c]
  | Call _ inner _ => flat_map closed_by inner
  | _ => []
  end.

Definition closed (t : list event) : list SSHClient := flat_map closed_by t.

Definition held (self : SSHConnection) : list SSHClient :=
  match _ssh_client self with Some c => [c] | None => [] end.

(** A remote whose channel says ready twice, with a payload each time,
    and then not ready. *)
Definition chatty : World :=
  mkWorld [] [true; true; false]
          [Bytes (lit " Linux"); Bytes (lit " box " ++ [CR; LF])] 2.

(** Proof support: the case analysis of a world as far as [connect]
    can look into it (four raising calls, one poll), and the hints for
    [keeps_self]. *)
Ltac connect_cases w :=
  destruct w as [fs rs cs n];
  destruct fs as [|[e1|] [|[e2|] [|[e3|] [|[e4|] fs]]]];
  destruct rs as [|[|] rs].

Create HintDb keeps.

(* ===================================================================== *)
(** ** Properties *)
(* ===================================================================== *)

Unset Implicit Arguments.


Example splitlines_ex1 :
  splitlines (lit "a" ++ [CR; LF] ++ lit "b" ++ [LF; LF] ++ lit "c")
  = [lit "a"; lit "b"; []; lit "c"].
Proof. reflexivity. Qed.

Example splitlines_ex2 : splitlines (lit "ab" ++ [LF]) = [lit "ab"].
Proof. reflexivity. Qed.

Example splitlines_ex3 : splitlines [LF; CR] = [[]; []].
Proof. reflexivity. Qed.

Example strip_ex : strip (lit "  a b " ++ [0x09%N; 0xA0%N]) = lit "a b".
Proof. reflexivity. Qed.

Example parse_ex :
  parse_cmd_output (lit " Linux x " ++ [CR; LF] ++ lit "   " ++ [LF] ++ lit "$ ")
  = [lit "Linux x"; lit "$"].
Proof. reflexivity. Qed.

(* --------------------------------------------------------------------- *)
(** *** Stripping *)
(* --------------------------------------------------------------------- *)

Section Strip.

Lemma blank_app (s t : str) : blank (s ++ t) = blank s && blank t.
Proof. apply forallb_app. Qed.

Lemma blank_rev (s : str) : blank (rev s) = blank s.
Proof.
  induction s as [|c s IH]; [reflexivity|].
  simpl rev. rewrite blank_app, IH. simpl.
  rewrite andb_true_r. apply andb_comm.
Qed.

Lemma lstrip_blank (s : str) : blank s = true -> lstrip s = [].
Proof.
  induction s as [|c s IH]; simpl; [reflexivity|].
  intros H. apply andb_prop in H as [Hc Hs]. rewrite Hc. auto.
Qed.

Lemma lstrip_nil_blank (s : str) : lstrip s = [] -> blank s = true.
Proof.
  induction s as [|c s IH]; simpl; [reflexivity|].
  destruct (isspace c); [auto | discriminate].
Qed.

Lemma lstrip_app_blank (s t : str) :
  blank s = true -> lstrip (s ++ t) = lstrip t.
Proof.
  induction s as [|c s IH]; simpl; [reflexivity|].
  intros H. apply andb_prop in H as [Hc Hs]. rewrite Hc. auto.
Qed.

Lemma lstrip_app_nonblank (s t : str) :
  blank s = false -> lstrip (s ++ t) = lstrip s ++ t.
Proof.
  induction s as [|c s IH]; simpl; [discriminate|].
  destruct (isspace c); simpl; auto.
Qed.

(** [rstrip] by recursion from the left. *)
Lemma rstrip_cons (c : codepoint) (s : str) :
  rstrip (c :: s) =
  if blank s then (if isspace c then [] else [c]) else c :: rstrip s.
Proof.
  unfold rstrip. simpl rev.
  destruct (blank s) eqn:Hb.
  - rewrite lstrip_app_blank by (now rewrite blank_rev).
    simpl. now destruct (isspace c).
  - rewrite lstrip_app_nonblank by (now rewrite blank_rev).
    now rewrite rev_app_distr.
Qed.

Lemma lstrip_first (s : str) : first_is_space (lstrip s) = false.
Proof.
  induction s as [|c s IH]; simpl; [reflexivity|].
  destruct (isspace c) eqn:Hc; [exact IH | simpl; exact Hc].
Qed.

Lemma rstrip_last (s : str) : last_is_space (rstrip s) = false.
Proof.
  unfold last_is_space, rstrip. rewrite rev_involutive. apply lstrip_first.
Qed.

Lemma rstrip_first (s : str) :
  first_is_space s = false -> first_is_space (rstrip s) = false.
Proof.
  destruct s as [|c s]; [reflexivity|].
  simpl. intros Hc. rewrite rstrip_cons.
  destruct (blank s); [rewrite Hc|]; simpl; exact Hc.
Qed.

Lemma strip_first (s : str) : first_is_space (strip s) = false.
Proof. apply rstrip_first, lstrip_first. Qed.

Lemma strip_last (s : str) : last_is_space (strip s) = false.
Proof. apply rstrip_last. Qed.

Lemma lstrip_fixed (s : str) : first_is_space s = false -> lstrip s = s.
Proof. destruct s as [|c s]; simpl; [reflexivity|]. now intros ->. Qed.

Lemma rstrip_fixed (s : str) : last_is_space s = false -> rstrip s = s.
Proof.
  unfold last_is_space, rstrip. intros H.
  rewrite (lstrip_fixed _ H). apply rev_involutive.
Qed.

Lemma strip_idempotent (s : str) : strip (strip s) = strip s.
Proof.
  unfold strip at 1.
  rewrite (lstrip_fixed _ (strip_first s)).
  apply rstrip_fixed, strip_last.
Qed.

Lemma lstrip_decompose (s : str) :
  exists pre, s = pre ++ lstrip s /\ blank pre = true.
Proof.
  induction s as [|c s [pre [E B]]]; simpl.
  - now exists [].
  - destruct (isspace c) eqn:Hc.
    + exists (c :: pre). simpl. rewrite Hc, B. split; [now f_equal | reflexivity].
    + now exists [].
Qed.

Lemma rstrip_decompose (s : str) :
  exists post, s = rstrip s ++ post /\ blank post = true.
Proof.
  destruct (lstrip_decompose (rev s)) as [pre [E B]].
  exists (rev pre). split.
  - unfold rstrip. rewrite <- rev_app_distr, <- E. symmetry. apply rev_involutive.
  - now rewrite blank_rev.
Qed.

Lemma strip_decompose (s : str) :
  exists pre post,
    s = pre ++ strip s ++ post /\ blank pre = true /\ blank post = true.
Proof.
  destruct (lstrip_decompose s) as [pre [E1 B1]].
  destruct (rstrip_decompose (lstrip s)) as [post [E2 B2]].
  exists pre, post. unfold strip. now rewrite <- E2, <- E1.
Qed.

Lemma blank_lstrip (s : str) : blank (lstrip s) = blank s.
Proof.
  induction s as [|c s IH]; simpl; [reflexivity|].
  destruct (isspace c) eqn:Hc; simpl; [exact IH | now rewrite Hc].
Qed.

Lemma truthy_lstrip (s : str) : truthy (lstrip s) = negb (blank s).
Proof.
  destruct (blank s) eqn:Hb.
  - now rewrite lstrip_blank.
  - destruct (lstrip s) eqn:E; [|reflexivity].
    apply lstrip_nil_blank in E. congruence.
Qed.

Lemma truthy_rev (s : str) : truthy (rev s) = truthy s.
Proof.
  destruct s as [|c s]; [reflexivity|]. simpl.
  now destruct (rev s).
Qed.

(** A line survives stripping exactly when it has a non-blank character. *)
Lemma truthy_strip (s : str) : truthy (strip s) = negb (blank s).
Proof.
  unfold strip, rstrip.
  now rewrite truthy_rev, truthy_lstrip, blank_rev, blank_lstrip.
Qed.

Lemma strip_clean (s : str) : truthy (strip s) = true -> clean (strip s) = true.
Proof.
  intros H. unfold clean. now rewrite H, strip_first, strip_last.
Qed.

End Strip.

(* --------------------------------------------------------------------- *)
(** *** parse_cmd_output *)
(* --------------------------------------------------------------------- *)

Lemma parse_cmd_output_filter_map (s : str) :
  parse_cmd_output s
  = map strip (filter (fun line => truthy (strip line)) (splitlines s)).
Proof.
  unfold parse_cmd_output.
  induction (splitlines s) as [|l ls IH]; [reflexivity|].
  simpl. rewrite IH. now destruct (truthy (strip l)).
Qed.

Lemma parse_cmd_output_clean (s : str) :
  forallb clean (parse_cmd_output s) = true.
Proof.
  unfold parse_cmd_output.
  induction (splitlines s) as [|l ls IH]; [reflexivity|].
  simpl. rewrite forallb_app, IH, andb_true_r.
  destruct (truthy (strip l)) eqn:T; [|reflexivity].
  simpl. now rewrite strip_clean.
Qed.

(* --------------------------------------------------------------------- *)
(** *** Re-parsing *)
(* --------------------------------------------------------------------- *)

Lemma no_break_app (s t : str) : no_break (s ++ t) = no_break s && no_break t.
Proof. apply forallb_app. Qed.

(** Scanning over characters that are not boundaries extends the
    current line. *)
Lemma splitlines_from_no_break (l cur rest : str) :
  no_break l = true ->
  splitlines_from cur (l ++ rest) = splitlines_from (cur ++ l) rest.
Proof.
  revert cur. induction l as [|c l IH]; intros cur H.
  - now rewrite app_nil_r.
  - simpl in H. apply andb_prop in H as [Hc Hl].
    simpl. apply negb_true_iff in Hc. rewrite Hc.
    rewrite IH by assumption. now rewrite <- app_assoc.
Qed.

(** No line produced by [splitlines] contains a boundary. *)
Lemma splitlines_from_lines (n : nat) :
  forall (s cur : str),
    (List.length s <= n)%nat -> no_break cur = true ->
    forallb no_break (splitlines_from cur s) = true.
Proof.
  induction n as [|n IH]; intros s cur Hlen Hcur.
  - destruct s; [|simpl in Hlen; lia].
    simpl. destruct (truthy cur); simpl; [now rewrite Hcur | reflexivity].
  - destruct s as [|c rest].
    + simpl. destruct (truthy cur); simpl; [now rewrite Hcur | reflexivity].
    + simpl in Hlen. simpl.
      destruct (is_linebreak c) eqn:Hc.
      * destruct rest as [|c' rest'].
        -- simpl. now rewrite Hcur.
        -- destruct ((c =? CR)%N && (c' =? LF)%N);
             cbn [forallb]; rewrite Hcur; cbn [andb];
             apply IH; simpl in *; try lia; reflexivity.
      * apply IH; [lia|].
        rewrite no_break_app, Hcur. simpl. now rewrite Hc.
Qed.

Lemma splitlines_lines (s : str) : forallb no_break (splitlines s) = true.
Proof. apply (splitlines_from_lines (List.length s)); auto. Qed.

Example lines_of_ex :
  lines_of (lit "a" ++ [CR; LF] ++ lit "b" ++ [LF])
           [lit "a"; lit "b"].
Proof.
  apply (@lines_crlf (lit "a") (lit "b" ++ [LF]) [lit "b"]); [reflexivity|].
  apply (@lines_break (lit "b") LF [] []); try reflexivity.
  apply lines_none.
Qed.

(** [splitlines] computes lines of the string it is given, *)
Lemma lines_of_splitlines_from (n : nat) :
  forall (s cur : str),
    (List.length s <= n)%nat -> no_break cur = true ->
    lines_of (cur ++ s) (splitlines_from cur s).
Proof.
  induction n as [|n IH]; intros s cur Hlen Hcur.
  - destruct s; [|simpl in Hlen; lia].
    rewrite app_nil_r. cbn.
    destruct (truthy cur) eqn:T.
    + now apply lines_last.
    + destruct cur; [apply lines_none | discriminate].
  - destruct s as [|c rest].
    + rewrite app_nil_r. cbn.
      destruct (truthy cur) eqn:T.
      * now apply lines_last.
      * destruct cur; [apply lines_none | discriminate].
    + simpl in Hlen. cbn [splitlines_from].
      destruct (is_linebreak c) eqn:Hc.
      * destruct rest as [|c' rest'].
        -- apply lines_break; auto.
           ++ unfold opens_crlf. apply andb_false_r.
           ++ apply lines_none.
        -- destruct ((c =? CR)%N && (c' =? LF)%N) eqn:Hcrlf.
           ++ apply andb_prop in Hcrlf as [Hcr Hlf].
              apply N.eqb_eq in Hcr, Hlf. subst c c'.
              apply lines_crlf; [assumption|].
              apply (IH rest' []); [simpl in *; lia | reflexivity].
           ++ apply lines_break; auto.
              apply (IH (c' :: rest') []); [simpl in *; lia | reflexivity].
      * replace (cur ++ c :: rest) with ((cur ++ [c]) ++ rest)
          by (now rewrite <- app_assoc).
        apply IH; [lia|].
        rewrite no_break_app, Hcur. cbn. now rewrite Hc.
Qed.

Lemma lines_of_splitlines (s : str) : lines_of s (splitlines s).
Proof. apply (lines_of_splitlines_from (List.length s) s []); auto. Qed.

(** and a string has no other lines. *)
Lemma lines_of_unique (s : str) (ls : list str) :
  lines_of s ls -> splitlines s = ls.
Proof.
  unfold splitlines.
  induction 1 as [| l T B | l rest ls B _ IH | l c rest ls B Hc Hcrlf _ IH].
  - reflexivity.
  - rewrite <- (app_nil_r l) at 1.
    rewrite splitlines_from_no_break by assumption.
    cbn. now rewrite T.
  - rewrite splitlines_from_no_break by assumption.
    cbn [app]. change (splitlines_from l (CR :: LF :: rest))
      with (l :: splitlines_from [] rest).
    now rewrite IH.
  - rewrite splitlines_from_no_break by assumption.
    cbn [app splitlines_from]. rewrite Hc.
    destruct rest as [|c' rest'].
    + now rewrite IH.
    + unfold opens_crlf in Hcrlf. rewrite Hcrlf. now rewrite IH.
Qed.

(** C1.  The lines of [s] are those of [str.splitlines]: [splitlines s]
    is the one list [ls] with [lines_of s ls].  [parse_cmd_output s]
    is the list of those lines whose stripped form is not empty, in the
    order of the lines, each replaced by its stripped form.  The
    stripped form of a line is the line without a whitespace-only prefix
    and a whitespace-only suffix, it neither starts nor ends with
    whitespace, and it is empty exactly when the line is all whitespace.
    Every returned entry is non-empty and neither starts nor ends with a
    whitespace character. *)
Theorem parse_cmd_output_spec (s : str) :
  (forall ls, lines_of s ls <-> ls = splitlines s)
  /\ parse_cmd_output s
     = map strip (filter (fun line => truthy (strip line)) (splitlines s))
  /\ (forall line,
        truthy (strip line) = negb (blank line)
        /\ first_is_space (strip line) = false
        /\ last_is_space (strip line) = false
        /\ exists pre post,
             line = pre ++ strip line ++ post
             /\ blank pre = true /\ blank post = true)
  /\ forallb clean (parse_cmd_output s) = true.
Proof.
  split.
  { intros ls. split.
    - intros H. symmetry. now apply lines_of_unique.
    - intros ->. apply lines_of_splitlines. }
  split; [apply parse_cmd_output_filter_map|].
  split; [|apply parse_cmd_output_clean].
  intros line.
  split; [apply truthy_strip|].
  split; [apply strip_first|].
  split; [apply strip_last | apply strip_decompose].
Qed.

Lemma no_break_lstrip (s : str) : no_break s = true -> no_break (lstrip s) = true.
Proof.
  induction s as [|c s IH]; simpl; [auto|].
  intros H. destruct (isspace c); [|exact H].
  apply andb_prop in H as [_ H]. auto.
Qed.

Lemma no_break_rev (s : str) : no_break (rev s) = no_break s.
Proof.
  induction s as [|c s IH]; [reflexivity|].
  simpl rev. rewrite no_break_app, IH. simpl.
  rewrite andb_true_r. apply andb_comm.
Qed.

Lemma no_break_strip (s : str) : no_break s = true -> no_break (strip s) = true.
Proof.
  intros H. unfold strip, rstrip.
  rewrite no_break_rev. apply no_break_lstrip.
  rewrite no_break_rev. now apply no_break_lstrip.
Qed.

Lemma parse_cmd_output_settled (s : str) :
  forallb settled (parse_cmd_output s) = true.
Proof.
  unfold parse_cmd_output.
  pose proof (splitlines_lines s) as H.
  induction (splitlines s) as [|l ls IH]; [reflexivity|].
  simpl in H. apply andb_prop in H as [Hl Hls].
  simpl. rewrite forallb_app, (IH Hls), andb_true_r.
  destruct (truthy (strip l)) eqn:T; [|reflexivity].
  simpl. unfold settled.
  now rewrite T, (no_break_strip _ Hl), (strip_clean _ T).
Qed.

Lemma join_truthy (x : str) (rest : list str) :
  truthy x = true -> truthy (join [LF] (x :: rest)) = true.
Proof.
  destruct x as [|c x]; [discriminate|]. intros _.
  simpl. now destruct rest.
Qed.

(** Splitting a newline-joined list of non-empty, boundary-free entries
    gives the list back. *)
Lemma splitlines_join (es : list str) :
  forallb settled es = true -> splitlines (join [LF] es) = es.
Proof.
  unfold splitlines.
  induction es as [|x rest IH]; [reflexivity|].
  intros H. simpl in H. apply andb_prop in H as [Hx Hrest].
  unfold settled in Hx.
  apply andb_prop in Hx as [Hx _]. apply andb_prop in Hx as [Tx Bx].
  destruct rest as [|y rest].
  - simpl. rewrite <- (app_nil_r x) at 1.
    rewrite splitlines_from_no_break by assumption.
    simpl. now rewrite Tx.
  - change (join [LF] (x :: y :: rest))
      with (x ++ [LF] ++ join [LF] (y :: rest)).
    rewrite splitlines_from_no_break by assumption.
    specialize (IH Hrest).
    assert (Ty : truthy (join [LF] (y :: rest)) = true).
    { apply join_truthy. simpl in Hrest.
      apply andb_prop in Hrest as [Hy _]. unfold settled in Hy.
      apply andb_prop in Hy as [Hy _]. now apply andb_prop in Hy as [Hy _]. }
    destruct (join [LF] (y :: rest)) as [|c' J] eqn:EJ; [discriminate|].
    change (splitlines_from ([] ++ x) ([LF] ++ c' :: J))
      with (x :: splitlines_from [] (c' :: J)).
    now rewrite IH.
Qed.

Lemma clean_strip_fixed (e : str) : clean e = true -> strip e = e.
Proof.
  unfold clean. intros H.
  apply andb_prop in H as [H Hl]. apply andb_prop in H as [_ Hf].
  apply negb_true_iff in Hl, Hf.
  unfold strip. rewrite (lstrip_fixed _ Hf). now apply rstrip_fixed.
Qed.

Lemma reparse_settled (es : list str) :
  forallb settled es = true ->
  flat_map (fun line => if truthy (strip line) then [strip line] else []) es
  = es.
Proof.
  induction es as [|e es IH]; [reflexivity|].
  intros H. simpl in H. apply andb_prop in H as [He Hes].
  unfold settled in He.
  apply andb_prop in He as [He Ce]. apply andb_prop in He as [Te _].
  simpl. rewrite (clean_strip_fixed _ Ce), Te, (IH Hes). reflexivity.
Qed.

(** C10.  Parsing is stable under re-parsing: joining the parsed lines
    with newlines and parsing the result again gives the same list. *)
Theorem parse_cmd_output_reparse (s : str) :
  parse_cmd_output (join [LF] (parse_cmd_output s)) = parse_cmd_output s.
Proof.
  pose proof (parse_cmd_output_settled s) as H.
  unfold parse_cmd_output at 1.
  rewrite (splitlines_join _ H).
  now apply reparse_settled.
Qed.

(* --------------------------------------------------------------------- *)
(** *** Traces *)
(* --------------------------------------------------------------------- *)

Lemma calls_of_app (m : method) (t1 t2 : list event) :
  calls_of m (t1 ++ t2) = calls_of m t1 ++ calls_of m t2.
Proof.
  induction t1 as [|e t1 IH]; [reflexivity|].
  destruct e as [op ok|d|line|m' inner ok]; simpl; auto.
  destruct (method_eqb m m'); simpl; now rewrite IH.
Qed.

Lemma sleeps_of_app (t1 t2 : list event) :
  sleeps_of (t1 ++ t2) = sleeps_of t1 ++ sleeps_of t2.
Proof.
  induction t1 as [|e t1 IH]; [reflexivity|].
  destruct e; simpl; now rewrite IH.
Qed.

Lemma length_range (lo hi : Z) : List.length (range lo hi) = Z.to_nat (hi - lo).
Proof. unfold range. now rewrite length_map, length_seq. Qed.

(* --------------------------------------------------------------------- *)
(** *** is_connected, disconnect *)
(* --------------------------------------------------------------------- *)

(** C4.  [is_connected] is true exactly when both the client handle and
    the shell handle are non-null. *)
Theorem is_connected_iff (self : SSHConnection) :
  is_connected self = true
  <-> (_ssh_client self <> None /\ _shell self <> None).
Proof.
  unfold is_connected.
  destruct (_ssh_client self) as [c|], (_shell self) as [ch|]; split;
    try discriminate; try (intros [Hc Hs]; congruence).
  intros _. split; discriminate.
Qed.

Lemma disconnect_outcome (self : SSHConnection) (w : World) :
  disconnect self w
  = mkOutcome (Return tt) (disconnected self) w (disconnect_trace self).
Proof.
  destruct self as [h u p po b [c|] [ch|]]; reflexivity.
Qed.

(** C9.  [disconnect] returns normally from every state, leaves both
    handles null (the configuration and the remote world untouched), and
    a second call returns normally without any effect or change. *)
Theorem disconnect_idempotent (self : SSHConnection) (w : World) :
  res (disconnect self w) = Return tt
  /\ obj (disconnect self w) = disconnected self
  /\ _ssh_client (obj (disconnect self w)) = None
  /\ _shell (obj (disconnect self w)) = None
  /\ disconnect (obj (disconnect self w)) (world (disconnect self w))
     = mkOutcome (Return tt) (obj (disconnect self w))
                 (world (disconnect self w)) [].
Proof.
  rewrite disconnect_outcome. cbn [res obj world].
  repeat (split; [reflexivity|]).
  now rewrite disconnect_outcome.
Qed.

(* --------------------------------------------------------------------- *)
(** *** send_command *)
(* --------------------------------------------------------------------- *)

(** C8.  When [is_connected] is false, [send_command] raises
    [ConnectionError] with no effect at all: nothing is sent, no call
    reaches paramiko, and the connection object and the remote world are
    what they were. *)
Theorem send_command_not_connected
    (command : str) (wait_time : Q) (self : SSHConnection) (w : World) :
  is_connected self = false ->
  send_command command wait_time self w = mkOutcome (Raise not_active) self w []
  /\ exn_cls not_active = ConnectionError.
Proof.
  intros H. split; [|reflexivity].
  unfold send_command, bind, get. now rewrite H.
Qed.

Lemma send_command_not_connected_witness :
  is_connected conn0 = false
  /\ send_command (lit "uname -a") default_wait_time conn0 quiet
     = mkOutcome (Raise not_active) conn0 quiet []
  /\ exn_cls not_active = ConnectionError.
Proof.
  split; [reflexivity|].
  apply (send_command_not_connected (lit "uname -a") default_wait_time conn0 quiet).
  reflexivity.
Defined.

(** The receive loop of [send_command] satisfies the equation of the
    [while] loop of the source: poll; when the channel is ready receive,
    decode, append, sleep and go round again; otherwise stop. *)
Lemma recv_loop_unfold (output : str) (self : SSHConnection) (w : World) :
  recv_loop output self w
  = (ch <- shell_attr "recv_ready" ;;
     ready <- recv_ready ch ;;
     if ready : bool then
       ch' <- shell_attr "recv" ;;
       self' <- get ;;
       data <- channel_recv ch' (buffer_size self') ;;
       sleep (1 # 10) ;;
       recv_loop (output ++ decode_ignore data)
     else ret output) self w.
Proof.
  destruct self as [h u p po b c [ch|]]; [|reflexivity].
  destruct w as [fs rs cs n].
  destruct rs as [|[|] rs]; try reflexivity.
  destruct fs as [|[e|] fs]; destruct cs as [|d cs]; try reflexivity;
    unfold recv_loop, bind; cbn;
    match goal with
    | |- context [recv_while_ready ?polls ?c ?nb ?out ?s ?w'] =>
        destruct (recv_while_ready polls c nb out s w')
    end; reflexivity.
Qed.

Section KeepsSelf.

Context {T : Type}.

Lemma keeps_ret {A} (a : A) : keeps_self (@ret T A a).
Proof. intros self w. reflexivity. Qed.

Lemma keeps_raise {A} (e : exn) : keeps_self (@raise T A e).
Proof. intros self w. reflexivity. Qed.

Lemma keeps_emit (e : event) : keeps_self (@emit T e).
Proof. intros self w. reflexivity. Qed.

Lemma keeps_get : keeps_self (@get T).
Proof. intros self w. reflexivity. Qed.

Lemma keeps_fallible (op : lib_call) : keeps_self (@fallible T op).
Proof.
  intros self w. unfold fallible.
  destruct (faults w) as [|[e|] fs]; reflexivity.
Qed.

Lemma keeps_next_chunk : keeps_self (@next_chunk T).
Proof.
  intros self w. unfold next_chunk. destruct (chunks w); reflexivity.
Qed.

Lemma keeps_answer (ch : Channel) (b : bool) (rest : list bool) :
  keeps_self (@answer_recv_ready T ch b rest).
Proof. intros self w. reflexivity. Qed.

Lemma keeps_sleep (seconds : Q) : keeps_self (@sleep T seconds).
Proof.
  intros self w. unfold sleep. destruct (sleepable seconds); reflexivity.
Qed.

Lemma keeps_bind {A B} (m : M T A) (k : A -> M T B) :
  keeps_self m -> (forall a, keeps_self (k a)) -> keeps_self (bind m k).
Proof.
  intros Hm Hk self w. unfold bind.
  specialize (Hm self w).
  destruct (m self w) as [[a|e] s1 w1 t1]; cbn [obj] in Hm; subst s1.
  - specialize (Hk a self w1).
    destruct (k a self w1) as [r s2 w2 t2]. exact Hk.
  - reflexivity.
Qed.

End KeepsSelf.

#[local] Hint Resolve keeps_ret keeps_raise keeps_emit keeps_get
  keeps_fallible keeps_next_chunk keeps_answer keeps_sleep : keeps.

Lemma keeps_recv_while_ready (polls : list bool) (ch : Channel) (nbytes : Z) :
  forall output, keeps_self (recv_while_ready polls ch nbytes output).
Proof.
  induction polls as [|[|] polls IH]; intros output; cbn [recv_while_ready].
  - apply keeps_bind; auto with keeps.
  - apply keeps_bind; [auto with keeps|]. intros _.
    apply keeps_bind.
    + unfold channel_recv. apply keeps_bind; auto with keeps.
    + intros data. apply keeps_bind; [auto with keeps|].
      intros _. apply IH.
  - apply keeps_bind; auto with keeps.
Qed.

(** [send_command] never assigns to the connection object, whether it
    returns or raises. *)
Lemma keeps_send_command (command : str) (wait_time : Q) :
  keeps_self (send_command command wait_time).
Proof.
  unfold send_command.
  apply keeps_bind; [auto with keeps|]. intros self.
  destruct (negb (is_connected self)); [auto with keeps|].
  apply keeps_bind.
  { unfold shell_attr. apply keeps_bind; [auto with keeps|].
    intros s. destruct (_shell s); auto with keeps. }
  intros ch. apply keeps_bind; [unfold channel_send; auto with keeps|].
  intros _. apply keeps_bind; [auto with keeps|].
  intros _. apply keeps_bind; [|auto with keeps].
  intros s w. unfold recv_loop. destruct (_shell s).
  - apply keeps_recv_while_ready.
  - reflexivity.
Qed.

(* --------------------------------------------------------------------- *)
(** *** connect *)
(* --------------------------------------------------------------------- *)

(** The result of [connect] in terms of the fault script: the first
    paramiko call that raises decides it. *)
Lemma connect_result (dp : bool) (self : SSHConnection) (w : World) :
  res (connect dp self w)
  = match first_fault (connect_calls dp w) (faults w) with
    | Some e0 => Raise (connect_failed e0)
    | None => Return tt
    end.
Proof.
  connect_cases w; destruct dp; destruct cs; reflexivity.
Qed.

(** The steps of [connect] raise exactly when the script holds a fault
    for one of them. *)
Lemma connect_try_result (dp : bool) (self : SSHConnection) (w : World) :
  res (connect_try dp self w)
  = match first_fault (connect_calls dp w) (faults w) with
    | Some e0 => Raise e0
    | None => Return tt
    end.
Proof.
  connect_cases w; destruct dp; destruct cs; reflexivity.
Qed.

(** After [connect]: both handles are set when it returns; the client
    handle is set, and the shell handle is the new or the previous one,
    when it raises. *)
Lemma connect_handles (dp : bool) (self : SSHConnection) (w : World) :
  match res (connect dp self w) with
  | Return _ => is_connected (obj (connect dp self w)) = true
  | Raise _ =>
      _ssh_client (obj (connect dp self w)) = Some (Client (next_id w))
      /\ (_shell (obj (connect dp self w)) = _shell self
          \/ _shell (obj (connect dp self w)) = Some (Chan (S (next_id w))))
  end.
Proof.
  connect_cases w; destruct dp; destruct cs; cbn; auto.
Qed.

(** C6.  Whenever a step inside [connect] raises an exception [e0],
    [connect] raises [ConnectionError("[!] SSH connection failed: e0")]
    in its place; when no step raises, [connect] returns; hence an
    exception leaving [connect] is always of class [ConnectionError]. *)
Theorem connect_error_kind (dp : bool) (self : SSHConnection) (w : World) :
  match res (connect_try dp self w) with
  | Raise e0 => res (connect dp self w) = Raise (connect_failed e0)
  | Return _ => res (connect dp self w) = Return tt
  end
  /\ res (connect_try dp self w)
     = match first_fault (connect_calls dp w) (faults w) with
       | Some e0 => Raise e0
       | None => Return tt
       end
  /\ match res (connect dp self w) with
     | Raise e => exn_cls e = ConnectionError
     | Return _ => True
     end.
Proof.
  split; [|split].
  - rewrite connect_try_result, connect_result.
    now destruct (first_fault _ _).
  - apply connect_try_result.
  - rewrite connect_result. now destruct (first_fault _ _).
Qed.

(* --------------------------------------------------------------------- *)
(** *** reconnect *)
(* --------------------------------------------------------------------- *)

(** One iteration of the loop of [reconnect]: disconnect, then connect;
    a failure of [connect] is printed and slept on, which absorbs it,
    unless [time.sleep] refuses the interval and raises. *)
Lemma reconnect_attempt_outcome
    (ri : Q) (attempt : Z) (self : SSHConnection) (w : World) :
  reconnect_attempt ri attempt self w
  = match connect false (disconnected self) w with
    | mkOutcome (Return _) s1 w1 t1 =>
        mkOutcome (Return (Some tt)) s1 w1
          [Call M_disconnect (disconnect_trace self) true;
           Call M_connect t1 true;
           Print (reconnected_line attempt)]
    | mkOutcome (Raise e) s1 w1 t1 =>
        if sleepable ri then
          mkOutcome (Return None) s1 w1
            [Call M_disconnect (disconnect_trace self) true;
             Call M_connect t1 false;
             Print (attempt_failed_line attempt e);
             Sleep ri]
        else
          mkOutcome (Raise (sleep_error ri)) s1 w1
            [Call M_disconnect (disconnect_trace self) true;
             Call M_connect t1 false;
             Print (attempt_failed_line attempt e)]
    end.
Proof.
  unfold reconnect_attempt, try_except, bind, call, sleep.
  rewrite disconnect_outcome.
  destruct (connect false (disconnected self) w) as [[[]|e] s1 w1 t1];
    [reflexivity|].
  destruct (sleepable ri); reflexivity.
Qed.

(** The loop of [reconnect] over any list of attempt numbers: it stops
    at the first attempt whose [connect] returns; it runs through the
    list when every [connect] fails; and the only exception that leaves
    it is the one of a [time.sleep] that refuses the interval, after the
    first failed attempt. *)
Lemma reconnect_loop (ri : Q) (items : list Z) :
  forall (self : SSHConnection) (w : World),
    match for_in items (reconnect_attempt ri) self w with
    | mkOutcome (Return (Some _)) s1 _ t =>
        exists k, (k < List.length items)%nat
          /\ calls_of M_connect t = repeat false k ++ [true]
          /\ calls_of M_disconnect t = repeat true (S k)
          /\ sleeps_of t = repeat ri k
          /\ is_connected s1 = true
    | mkOutcome (Return None) _ _ t =>
        calls_of M_connect t = repeat false (List.length items)
        /\ calls_of M_disconnect t = repeat true (List.length items)
        /\ sleeps_of t = repeat ri (List.length items)
        /\ (sleepable ri = true \/ List.length items = 0%nat)
    | mkOutcome (Raise e) _ _ t =>
        e = sleep_error ri
        /\ sleepable ri = false
        /\ calls_of M_connect t = [false]
        /\ calls_of M_disconnect t = [true]
        /\ sleeps_of t = []
        /\ (1 <= List.length items)%nat
    end.
Proof.
  induction items as [|a items IH]; intros self w.
  - cbn. auto 6.
  - cbn [for_in]. unfold bind at 1.
    rewrite reconnect_attempt_outcome.
    pose proof (connect_handles false (disconnected self) w) as Hc.
    destruct (connect false (disconnected self) w) as [[[]|e] s1 w1 t1];
      cbn [res obj] in Hc.
    + cbn. exists 0%nat. repeat split; auto. lia.
    + destruct (sleepable ri) eqn:Hq.
      * specialize (IH s1 w1).
        destruct (for_in items (reconnect_attempt ri) s1 w1)
          as [[[v|]|e'] s2 w2 t2].
        -- destruct IH as (k & Hk & Hcon & Hdis & Hsl & Hs).
           exists (S k). cbn. rewrite Hcon, Hsl.
           cbn in Hdis. rewrite Hdis.
           repeat split; auto. lia.
        -- destruct IH as (Hcon & Hdis & Hsl & _).
           cbn. rewrite Hcon, Hdis, Hsl. auto.
        -- destruct IH as (_ & Hneg & _). congruence.
      * cbn. repeat split. lia.
Qed.

Lemma reconnect_outcome (rc : Z) (ri : Q) (self : SSHConnection) (w : World) :
  reconnect rc ri self w
  = match for_in (range 1 (rc + 1)) (reconnect_attempt ri) self w with
    | mkOutcome (Return (Some v)) s1 w1 t =>
        mkOutcome (Return v) s1 w1 (Print (reconnecting_line self) :: t)
    | mkOutcome (Return None) s1 w1 t =>
        mkOutcome (Raise reconnect_exhausted) s1 w1
                  (Print (reconnecting_line self) :: t)
    | mkOutcome (Raise e) s1 w1 t =>
        mkOutcome (Raise e) s1 w1 (Print (reconnecting_line self) :: t)
    end.
Proof.
  unfold reconnect, bind, get, print, emit, ret, raise.
  destruct (for_in (range 1 (rc + 1)) (reconnect_attempt ri) self w)
    as [[[v|]|e] s1 w1 t]; cbn [app]; now rewrite ?app_nil_r.
Qed.

(** What a call of [reconnect] amounts to. *)
Lemma reconnect_summary (rc : Z) (ri : Q) (self : SSHConnection) (w : World) :
  match reconnect rc ri self w with
  | mkOutcome (Return _) s1 _ t =>
      exists k, (k < Z.to_nat rc)%nat
        /\ calls_of M_connect t = repeat false k ++ [true]
        /\ calls_of M_disconnect t = repeat true (S k)
        /\ sleeps_of t = repeat ri k
        /\ is_connected s1 = true
  | mkOutcome (Raise e) _ _ t =>
      (e = reconnect_exhausted
       /\ calls_of M_connect t = repeat false (Z.to_nat rc)
       /\ calls_of M_disconnect t = repeat true (Z.to_nat rc)
       /\ sleeps_of t = repeat ri (Z.to_nat rc)
       /\ (sleepable ri = true \/ Z.to_nat rc = 0%nat))
      \/ (e = sleep_error ri
          /\ sleepable ri = false
          /\ calls_of M_connect t = [false]
          /\ calls_of M_disconnect t = [true]
          /\ sleeps_of t = []
          /\ (1 <= Z.to_nat rc)%nat)
  end.
Proof.
  rewrite reconnect_outcome.
  pose proof (reconnect_loop ri (range 1 (rc + 1)) self w) as H.
  rewrite length_range in H.
  replace (rc + 1 - 1)%Z with rc in H by lia.
  destruct (for_in (range 1 (rc + 1)) (reconnect_attempt ri) self w)
    as [[[v|]|e] s1 w1 t]; [exact H | left | right; exact H].
  split; [reflexivity | exact H].
Qed.

(** The same for an interval that [time.sleep] accepts. *)
Lemma reconnect_summary_nonneg
    (rc : Z) (ri : Q) (self : SSHConnection) (w : World) :
  sleepable ri = true ->
  match reconnect rc ri self w with
  | mkOutcome (Return _) s1 _ t =>
      exists k, (k < Z.to_nat rc)%nat
        /\ calls_of M_connect t = repeat false k ++ [true]
        /\ calls_of M_disconnect t = repeat true (S k)
        /\ sleeps_of t = repeat ri k
        /\ is_connected s1 = true
  | mkOutcome (Raise e) _ _ t =>
      e = reconnect_exhausted
      /\ calls_of M_connect t = repeat false (Z.to_nat rc)
      /\ calls_of M_disconnect t = repeat true (Z.to_nat rc)
      /\ sleeps_of t = repeat ri (Z.to_nat rc)
  end.
Proof.
  intros Hq. pose proof (reconnect_summary rc ri self w) as H.
  destruct (reconnect rc ri self w) as [[[]|e] s1 w1 t]; [exact H|].
  destruct H as [(He & Hc & Hd & Hs & _) | (_ & Hneg & _)];
    [auto | congruence].
Qed.

(** C3.  For [retry_count >= 0], [reconnect] makes at most
    [retry_count] attempts, each one call of [disconnect] followed by one
    call of [connect]; when it returns, the attempt that succeeded is the
    last one made; when it raises, every attempt made has failed: all
    [retry_count] of them when [time.sleep] accepts the interval, and
    the first one only when it refuses it. *)
Theorem reconnect_bounded
    (rc : Z) (ri : Q) (self : SSHConnection) (w : World) :
  (0 <= rc)%Z ->
  (Z.of_nat (List.length (calls_of M_connect (trace (reconnect rc ri self w))))
   <= rc)%Z
  /\ calls_of M_disconnect (trace (reconnect rc ri self w))
     = repeat true
         (List.length (calls_of M_connect (trace (reconnect rc ri self w))))
  /\ match res (reconnect rc ri self w) with
     | Return _ =>
         exists k,
           calls_of M_connect (trace (reconnect rc ri self w))
           = repeat false k ++ [true]
     | Raise _ =>
         calls_of M_connect (trace (reconnect rc ri self w))
         = repeat false
             (if sleepable ri then Z.to_nat rc
              else Nat.min 1 (Z.to_nat rc))
     end.
Proof.
  intros Hrc.
  pose proof (reconnect_summary rc ri self w) as H.
  destruct (reconnect rc ri self w) as [[[]|e] s1 w1 t]; cbn [res trace].
  - destruct H as (k & Hk & Hcon & Hdis & _).
    rewrite Hcon, Hdis, length_app, repeat_length. cbn [List.length].
    repeat split; [lia | f_equal; lia | now exists k].
  - destruct H as [(_ & Hcon & Hdis & _ & Hq) | (_ & Hq & Hcon & Hdis & _ & Hn)].
    + rewrite Hcon, Hdis, repeat_length.
      repeat split; [lia|].
      destruct Hq as [-> | Hz]; [reflexivity|].
      rewrite Hz. now destruct (sleepable ri).
    + rewrite Hcon, Hdis, Hq. cbn [List.length repeat].
      repeat split; [lia|].
      replace (Nat.min 1 (Z.to_nat rc)) with 1%nat by lia. reflexivity.
Qed.

Lemma reconnect_bounded_witness :
  (0 <= 2)%Z
  /\ (Z.of_nat (List.length
        (calls_of M_connect (trace (reconnect 2 2 conn0 (refusing 1)))))
      <= 2)%Z
  /\ calls_of M_disconnect (trace (reconnect 2 2 conn0 (refusing 1)))
     = repeat true
         (List.length
            (calls_of M_connect (trace (reconnect 2 2 conn0 (refusing 1)))))
  /\ match res (reconnect 2 2 conn0 (refusing 1)) with
     | Return _ =>
         exists k,
           calls_of M_connect (trace (reconnect 2 2 conn0 (refusing 1)))
           = repeat false k ++ [true]
     | Raise _ =>
         calls_of M_connect (trace (reconnect 2 2 conn0 (refusing 1)))
         = repeat false
             (if sleepable 2 then Z.to_nat 2 else Nat.min 1 (Z.to_nat 2))
     end.
Proof.
  split; [lia|].
  apply (reconnect_bounded 2 2 conn0 (refusing 1)). lia.
Defined.

Lemma sleepable_iff (seconds : Q) :
  sleepable seconds = true <-> (0 <= seconds /\ seconds <= sleep_limit)%Q.
Proof.
  unfold sleepable. rewrite andb_true_iff, !Qle_bool_iff. reflexivity.
Qed.

(** C7, counterexample.  With the interval [-1] and a remote that
    refuses, the one attempt made fails, [time.sleep(-1)] raises in the
    [except] handler, and what leaves [reconnect] is that [ValueError],
    not a [ConnectionError]; no sleep was made.  The same happens, with
    [OverflowError], for an interval of 10^10 seconds, which is too long
    for [time.sleep]. *)
Lemma reconnect_negative_interval :
  (forallb negb
     (calls_of M_connect (trace (reconnect 3 (-1) conn0 (refusing 3)))) = true
   /\ calls_of M_connect (trace (reconnect 3 (-1) conn0 (refusing 3)))
      = [false]
   /\ res (reconnect 3 (-1) conn0 (refusing 3)) = Raise sleep_negative
   /\ exn_cls sleep_negative = ValueError
   /\ sleeps_of (trace (reconnect 3 (-1) conn0 (refusing 3))) = [])
  /\ (forallb negb
        (calls_of M_connect
           (trace (reconnect 3 10000000000 conn0 (refusing 3)))) = true
      /\ calls_of M_connect
           (trace (reconnect 3 10000000000 conn0 (refusing 3))) = [false]
      /\ res (reconnect 3 10000000000 conn0 (refusing 3))
         = Raise sleep_too_large
      /\ exn_cls sleep_too_large = OverflowError
      /\ sleeps_of (trace (reconnect 3 10000000000 conn0 (refusing 3))) = []).
Proof. repeat split; vm_compute; reflexivity. Qed.

(** C7, amended.  For an interval that [time.sleep] accepts
    ([0 <= retry_interval <= sleep_limit]), when every attempt of
    [reconnect] fails, all [retry_count] attempts have been made,
    [reconnect] raises
    [ConnectionError("[!] Reconnection attempts exhausted.")] to its
    caller, and the sleeps it made, one after each failed attempt, all
    lasted the same [retry_interval]. *)
Theorem reconnect_exhaustion
    (rc : Z) (ri : Q) (self : SSHConnection) (w : World) :
  (0 <= ri)%Q ->
  (ri <= sleep_limit)%Q ->
  forallb negb (calls_of M_connect (trace (reconnect rc ri self w))) = true ->
  res (reconnect rc ri self w) = Raise reconnect_exhausted
  /\ exn_cls reconnect_exhausted = ConnectionError
  /\ calls_of M_connect (trace (reconnect rc ri self w))
     = repeat false (Z.to_nat rc)
  /\ sleeps_of (trace (reconnect rc ri self w))
     = repeat ri
         (List.length (calls_of M_connect (trace (reconnect rc ri self w)))).
Proof.
  intros Hlo Hhi.
  assert (Hri : sleepable ri = true) by (apply sleepable_iff; now split).
  pose proof (reconnect_summary_nonneg rc ri self w Hri) as H.
  destruct (reconnect rc ri self w) as [[[]|e] s1 w1 t]; cbn [res trace].
  - destruct H as (k & _ & Hcon & _). rewrite Hcon, forallb_app.
    cbn. rewrite andb_false_r. discriminate.
  - destruct H as (-> & Hcon & _ & Hsl). intros _.
    rewrite Hcon, Hsl, repeat_length. auto.
Qed.

Lemma reconnect_exhaustion_witness :
  (0 <= 1 # 2)%Q
  /\ (1 # 2 <= sleep_limit)%Q
  /\ forallb negb
       (calls_of M_connect (trace (reconnect 3 (1 # 2) conn0 (refusing 3))))
     = true
  /\ res (reconnect 3 (1 # 2) conn0 (refusing 3)) = Raise reconnect_exhausted
  /\ exn_cls reconnect_exhausted = ConnectionError
  /\ calls_of M_connect (trace (reconnect 3 (1 # 2) conn0 (refusing 3)))
     = repeat false (Z.to_nat 3)
  /\ sleeps_of (trace (reconnect 3 (1 # 2) conn0 (refusing 3)))
     = repeat (1 # 2)%Q
         (List.length
            (calls_of M_connect
               (trace (reconnect 3 (1 # 2) conn0 (refusing 3))))).
Proof.
  assert (Hlo : (0 <= 1 # 2)%Q) by (unfold Qle; simpl; lia).
  assert (Hhi : (1 # 2 <= sleep_limit)%Q) by (unfold Qle; simpl; lia).
  split; [exact Hlo|]. split; [exact Hhi|].
  split; [vm_compute; reflexivity|].
  apply (reconnect_exhaustion 3 (1 # 2) conn0 (refusing 3));
    [exact Hlo | exact Hhi | vm_compute; reflexivity].
Defined.

(** The sleeps of [reconnect] all last [retry_interval], whatever the
    outcome: one per failed attempt that was slept on. *)
Lemma reconnect_sleeps (rc : Z) (ri : Q) (self : SSHConnection) (w : World) :
  exists k, sleeps_of (trace (reconnect rc ri self w)) = repeat ri k.
Proof.
  pose proof (reconnect_summary rc ri self w) as H.
  destruct (reconnect rc ri self w) as [[[]|e] s1 w1 t]; cbn [trace].
  - destruct H as (k & _ & _ & _ & Hsl & _). now exists k.
  - destruct H as [(_ & _ & _ & Hsl & _) | (_ & _ & _ & _ & Hsl & _)].
    + now exists (Z.to_nat rc).
    + now exists 0%nat.
Qed.

(* --------------------------------------------------------------------- *)
(** *** The handle invariant *)
(* --------------------------------------------------------------------- *)

(** C2, counterexample.  From the initial state, where both handles are
    null, a [connect] whose [SSHClient.connect] step is refused raises
    and leaves the client handle set and the shell handle null. *)
Lemma connect_breaks_handles_inv :
  handles_inv conn0 = true
  /\ res (connect false conn0 (refusing 1)) = Raise (connect_failed auth_failure)
  /\ _ssh_client (obj (connect false conn0 (refusing 1))) = Some (Client 0)
  /\ _shell (obj (connect false conn0 (refusing 1))) = None
  /\ handles_inv (obj (connect false conn0 (refusing 1))) = false.
Proof. repeat split. Qed.

Lemma is_connected_handles_inv (self : SSHConnection) :
  is_connected self = true -> handles_inv self = true.
Proof.
  unfold is_connected, handles_inv.
  now destruct (_ssh_client self), (_shell self).
Qed.

(** C2, amended.  [disconnect] and [send_command] preserve the handle
    invariant on every exit, also when they raise: [disconnect] leaves
    both handles null, [send_command] leaves the connection object as it
    was.  [connect] and [reconnect] establish it whenever they return
    normally: both handles are then non-null. *)
Theorem handles_inv_operations (self : SSHConnection) (w : World) :
  (handles_inv (obj (disconnect self w)) = true
   /\ _ssh_client (obj (disconnect self w)) = None
   /\ _shell (obj (disconnect self w)) = None)
  /\ (forall command wait_time,
        obj (send_command command wait_time self w) = self
        /\ handles_inv (obj (send_command command wait_time self w))
           = handles_inv self)
  /\ (forall dp,
        match res (connect dp self w) with
        | Return _ => is_connected (obj (connect dp self w)) = true
                      /\ handles_inv (obj (connect dp self w)) = true
        | Raise _ => True
        end)
  /\ (forall rc ri,
        match res (reconnect rc ri self w) with
        | Return _ => is_connected (obj (reconnect rc ri self w)) = true
                      /\ handles_inv (obj (reconnect rc ri self w)) = true
        | Raise _ => True
        end).
Proof.
  split; [now rewrite disconnect_outcome|].
  split.
  { intros command wait_time.
    now rewrite (keeps_send_command command wait_time self w). }
  split.
  - intros dp. pose proof (connect_handles dp self w) as H.
    destruct (res (connect dp self w)); [|exact I].
    split; [exact H | now apply is_connected_handles_inv].
  - intros rc ri. pose proof (reconnect_summary rc ri self w) as H.
    destruct (reconnect rc ri self w) as [[[]|e] s1 w1 t]; cbn [res obj];
      [|exact I].
    destruct H as (k & _ & _ & _ & _ & Hs).
    split; [exact Hs | now apply is_connected_handles_inv].
Qed.

(* --------------------------------------------------------------------- *)
(** *** run_cmd *)
(* --------------------------------------------------------------------- *)

(** One iteration of the loop of [run_cmd]: a failed [send_command] is
    followed by a [reconnect]; an exception of that [reconnect] leaves
    the loop. *)
Lemma run_cmd_attempt_outcome
    (command : str) (attempt : Z) (self : ShellInterface) (w : World) :
  run_cmd_attempt command attempt self w
  = match send_command command default_wait_time (connection self) w with
    | mkOutcome (Return out) c1 w1 t1 =>
        mkOutcome (Return (Some out)) (mkShellInterface c1 (prompt self)) w1
                  [Call M_send_command t1 true]
    | mkOutcome (Raise e) c1 w1 t1 =>
        match reconnect default_retry_count default_retry_interval c1 w1 with
        | mkOutcome (Return _) c2 w2 t2 =>
            mkOutcome (Return None) (mkShellInterface c2 (prompt self)) w2
                      [Call M_send_command t1 false;
                       Print (command_failed_line e);
                       Call M_reconnect t2 true]
        | mkOutcome (Raise e') c2 w2 t2 =>
            mkOutcome (Raise e') (mkShellInterface c2 (prompt self)) w2
                      [Call M_send_command t1 false;
                       Print (command_failed_line e);
                       Call M_reconnect t2 false]
        end
    end.
Proof.
  unfold run_cmd_attempt, try_except, bind, on_connection, call.
  destruct (send_command command default_wait_time (connection self) w)
    as [[out|e] c1 w1 t1]; [reflexivity|].
  cbn [print emit connection prompt].
  destruct (reconnect default_retry_count default_retry_interval c1 w1)
    as [[[]|e'] c2 w2 t2]; reflexivity.
Qed.

Lemma run_cmd_loop (command : str) (items : list Z) :
  forall (self : ShellInterface) (w : World),
    match for_in items (run_cmd_attempt command) self w with
    | mkOutcome (Return (Some _)) _ _ t =>
        exists k, (k < List.length items)%nat
          /\ calls_of M_send_command t = repeat false k ++ [true]
          /\ calls_of M_reconnect t = repeat true k
    | mkOutcome (Return None) _ _ t =>
        calls_of M_send_command t = repeat false (List.length items)
        /\ calls_of M_reconnect t = repeat true (List.length items)
    | mkOutcome (Raise e) _ _ t =>
        e = reconnect_exhausted
        /\ exists k, (k < List.length items)%nat
             /\ calls_of M_send_command t = repeat false (S k)
             /\ calls_of M_reconnect t = repeat true k ++ [false]
    end.
Proof.
  induction items as [|a items IH]; intros self w.
  - cbn. auto.
  - cbn [for_in]. unfold bind at 1.
    rewrite run_cmd_attempt_outcome.
    destruct (send_command command default_wait_time (connection self) w)
      as [[out|e] c1 w1 t1].
    + cbn. exists 0%nat. repeat split. lia.
    + pose proof (reconnect_summary_nonneg default_retry_count
                    default_retry_interval c1 w1 eq_refl) as Hr.
      destruct (reconnect default_retry_count default_retry_interval c1 w1)
        as [[[]|e'] c2 w2 t2].
      * specialize (IH (mkShellInterface c2 (prompt self)) w2).
        destruct (for_in items (run_cmd_attempt command)
                    (mkShellInterface c2 (prompt self)) w2)
          as [[[v|]|e''] s3 w3 t3].
        -- destruct IH as (k & Hk & Hs & Hrc).
           exists (S k). cbn. rewrite Hs, Hrc. repeat split. lia.
        -- destruct IH as (Hs & Hrc). cbn. now rewrite Hs, Hrc.
        -- destruct IH as (-> & k & Hk & Hs & Hrc).
           split; [reflexivity|].
           exists (S k). cbn. cbn in Hs. rewrite Hs, Hrc. repeat split. lia.
      * destruct Hr as (-> & _).
        split; [reflexivity|]. exists 0%nat. cbn. repeat split. lia.
Qed.

Lemma run_cmd_outcome (command : str) (rc : Z) (self : ShellInterface) (w : World) :
  run_cmd command rc self w
  = match for_in (range 0 (if (rc =? 0)%Z then 1%Z else rc))
                 (run_cmd_attempt command) self w with
    | mkOutcome (Return (Some out)) s1 w1 t => mkOutcome (Return out) s1 w1 t
    | mkOutcome (Return None) s1 w1 t =>
        mkOutcome (Raise (run_cmd_failed rc)) s1 w1 t
    | mkOutcome (Raise e) s1 w1 t => mkOutcome (Raise e) s1 w1 t
    end.
Proof.
  unfold run_cmd, bind, ret, raise.
  destruct (for_in _ (run_cmd_attempt command) self w)
    as [[[v|]|e] s1 w1 t]; now rewrite ?app_nil_r.
Qed.

(** What a call of [run_cmd] amounts to. *)
Lemma run_cmd_summary (command : str) (rc : Z) (self : ShellInterface) (w : World) :
  match run_cmd command rc self w with
  | mkOutcome (Return _) _ _ t =>
      exists k, (k < run_cmd_attempts rc)%nat
        /\ calls_of M_send_command t = repeat false k ++ [true]
        /\ calls_of M_reconnect t = repeat true k
  | mkOutcome (Raise e) _ _ t =>
      (e = run_cmd_failed rc
       /\ calls_of M_send_command t = repeat false (run_cmd_attempts rc)
       /\ calls_of M_reconnect t = repeat true (run_cmd_attempts rc))
      \/ (e = reconnect_exhausted
          /\ exists k, (k < run_cmd_attempts rc)%nat
               /\ calls_of M_send_command t = repeat false (S k)
               /\ calls_of M_reconnect t = repeat true k ++ [false])
  end.
Proof.
  rewrite run_cmd_outcome.
  pose proof (run_cmd_loop command
                (range 0 (if (rc =? 0)%Z then 1%Z else rc)) self w) as H.
  rewrite length_range, Z.sub_0_r in H.
  fold (run_cmd_attempts rc) in H.
  destruct (for_in _ (run_cmd_attempt command) self w)
    as [[[v|]|e] s1 w1 t]; [exact H | left | right; exact H].
  split; [reflexivity | exact H].
Qed.

(** C5, counterexample.  In the entry point's session, with the first
    [send] timing out: for [retry_count = 0] one attempt is made, not
    zero, before [RuntimeError]; and for [retry_count = 2], when the
    remote then refuses the three connections of [reconnect], one
    attempt is made, not two, and the exception is the
    [ConnectionError] of [reconnect]. *)
Lemma run_cmd_attempts_differ :
  calls_of M_send_command
    (trace (session [None; None; Some send_timeout] 0)) = [false]
  /\ res (session [None; None; Some send_timeout] 0) = Raise (run_cmd_failed 0)
  /\ calls_of M_send_command
       (trace (session [None; None; Some send_timeout; Some auth_failure;
                        Some auth_failure; Some auth_failure] 2)) = [false]
  /\ res (session [None; None; Some send_timeout; Some auth_failure;
                   Some auth_failure; Some auth_failure] 2)
     = Raise reconnect_exhausted.
Proof. repeat split; vm_compute; reflexivity. Qed.

(** C5, amended.  For [retry_count >= 0], when every [send_command]
    attempt fails and every [reconnect] that follows a failed attempt
    succeeds, [run_cmd] makes exactly [retry_count] attempts, or one
    attempt when [retry_count] is 0, and then raises [RuntimeError]. *)
Theorem run_cmd_attempts_exact
    (command : str) (rc : Z) (self : ShellInterface) (w : World) :
  (0 <= rc)%Z ->
  forallb negb (calls_of M_send_command (trace (run_cmd command rc self w)))
  = true ->
  forallb (fun ok => ok) (calls_of M_reconnect (trace (run_cmd command rc self w)))
  = true ->
  Z.of_nat (List.length
              (calls_of M_send_command (trace (run_cmd command rc self w))))
  = (if (rc =? 0)%Z then 1%Z else rc)
  /\ res (run_cmd command rc self w) = Raise (run_cmd_failed rc)
  /\ exn_cls (run_cmd_failed rc) = RuntimeError.
Proof.
  intros Hrc.
  pose proof (run_cmd_summary command rc self w) as H.
  destruct (run_cmd command rc self w) as [[out|e] s1 w1 t]; cbn [res trace].
  - destruct H as (k & _ & Hs & _). rewrite Hs, forallb_app. cbn.
    rewrite andb_false_r. discriminate.
  - destruct H as [(-> & Hs & _) | (_ & k & _ & _ & Hr)].
    + intros _ _. rewrite Hs, repeat_length. unfold run_cmd_attempts.
      repeat split. destruct (rc =? 0)%Z; lia.
    + intros _. rewrite Hr, forallb_app. cbn.
      rewrite andb_false_r. discriminate.
Qed.

Lemma run_cmd_attempts_exact_witness :
  (0 <= 2)%Z
  /\ forallb negb
       (calls_of M_send_command
          (trace (run_cmd (lit "uname -a") 2 shell0 flaky))) = true
  /\ forallb (fun ok => ok)
       (calls_of M_reconnect
          (trace (run_cmd (lit "uname -a") 2 shell0 flaky))) = true
  /\ Z.of_nat (List.length
       (calls_of M_send_command
          (trace (run_cmd (lit "uname -a") 2 shell0 flaky))))
     = (if (2 =? 0)%Z then 1%Z else 2%Z)
  /\ res (run_cmd (lit "uname -a") 2 shell0 flaky) = Raise (run_cmd_failed 2)
  /\ exn_cls (run_cmd_failed 2) = RuntimeError.
Proof.
  split; [lia|]. split; [vm_compute; reflexivity|].
  split; [vm_compute; reflexivity|].
  apply (run_cmd_attempts_exact (lit "uname -a") 2 shell0 flaky);
    [lia | vm_compute; reflexivity | vm_compute; reflexivity].
Defined.

(* ===================================================================== *)
(** ** Further properties *)
(* ===================================================================== *)

(* --------------------------------------------------------------------- *)
(** *** parse_cmd_output: empty results, line boundaries, concatenation *)
(* --------------------------------------------------------------------- *)

(** Every line boundary is a whitespace character. *)
Lemma linebreak_isspace (c : codepoint) :
  is_linebreak c = true -> isspace c = true.
Proof.
  unfold is_linebreak, isspace, between.
  rewrite !orb_true_iff, !andb_true_iff, !N.leb_le, !N.eqb_eq.
  lia.
Qed.

Lemma blank_splitlines_from (n : nat) :
  forall (s cur : str),
    (List.length s <= n)%nat ->
    forallb blank (splitlines_from cur s) = blank cur && blank s.
Proof.
  induction n as [|n IH]; intros s cur Hlen.
  - destruct s; [|simpl in Hlen; lia].
    simpl. destruct cur; simpl; [reflexivity|].
    now rewrite !andb_true_r.
  - destruct s as [|c rest].
    + simpl. destruct cur; simpl; [reflexivity|]. now rewrite !andb_true_r.
    + simpl in Hlen. cbn [splitlines_from].
      destruct (is_linebreak c) eqn:Hc.
      * assert (Hsp : isspace c = true) by now apply linebreak_isspace.
        destruct rest as [|c' rest'].
        -- cbn. now rewrite Hsp, !andb_true_r.
        -- destruct ((c =? CR)%N && (c' =? LF)%N) eqn:Hcrlf.
           ++ apply andb_prop in Hcrlf as [_ Hlf].
              apply N.eqb_eq in Hlf. subst c'.
              cbn [forallb]. rewrite IH by (simpl in *; lia).
              cbn. now rewrite Hsp.
           ++ cbn [forallb]. rewrite IH by (simpl in *; lia).
              cbn [blank forallb andb]. now rewrite Hsp.
      * rewrite IH by lia. rewrite blank_app. cbn.
        rewrite andb_true_r. symmetry. apply andb_assoc.
Qed.

Lemma blank_splitlines (s : str) : forallb blank (splitlines s) = blank s.
Proof. apply (blank_splitlines_from (List.length s)). auto. Qed.

Lemma parse_nil_all_blank (ls : list str) :
  flat_map (fun line => if truthy (strip line) then [strip line] else []) ls = []
  <-> forallb blank ls = true.
Proof.
  induction ls as [|l ls IH]; [split; reflexivity|].
  cbn [flat_map forallb]. rewrite truthy_strip.
  destruct (blank l); cbn; [exact IH|].
  split; discriminate.
Qed.

(** The result is empty exactly when the input consists of whitespace
    only (the empty input included). *)
Theorem parse_cmd_output_nil_iff (s : str) :
  parse_cmd_output s = [] <-> blank s = true.
Proof.
  unfold parse_cmd_output. rewrite parse_nil_all_blank.
  now rewrite blank_splitlines.
Qed.

(** No returned entry contains a line boundary. *)
Theorem parse_cmd_output_no_break (s : str) :
  forallb no_break (parse_cmd_output s) = true.
Proof.
  pose proof (parse_cmd_output_settled s) as H.
  induction (parse_cmd_output s) as [|e es IH]; [reflexivity|].
  cbn [forallb] in *. apply andb_prop in H as [He Hes].
  unfold settled in He. apply andb_prop in He as [He _].
  apply andb_prop in He as [_ He]. now rewrite He, IH.
Qed.

Lemma splitlines_from_LF (cur b : str) :
  splitlines_from cur (LF :: b) = cur :: splitlines_from [] b.
Proof. destruct b; reflexivity. Qed.

Lemma parse_last_line (cur : str) :
  flat_map (fun line => if truthy (strip line) then [strip line] else [])
           (splitlines_from cur [])
  = if truthy (strip cur) then [strip cur] else [].
Proof. destruct cur; cbn; [reflexivity | now rewrite app_nil_r]. Qed.

Lemma parse_from_newline (n : nat) :
  forall (a cur b : str),
    (List.length a <= n)%nat ->
    flat_map (fun line => if truthy (strip line) then [strip line] else [])
             (splitlines_from cur (a ++ LF :: b))
    = flat_map (fun line => if truthy (strip line) then [strip line] else [])
               (splitlines_from cur a)
      ++ parse_cmd_output b.
Proof.
  unfold parse_cmd_output, splitlines.
  induction n as [|n IH]; intros a cur b Hlen.
  - destruct a; [|simpl in Hlen; lia].
    cbn [app]. rewrite splitlines_from_LF, parse_last_line. reflexivity.
  - destruct a as [|c rest].
    + cbn [app]. rewrite splitlines_from_LF, parse_last_line. reflexivity.
    + simpl in Hlen. cbn [app splitlines_from].
      destruct (is_linebreak c) eqn:Hc.
      * destruct rest as [|c' rest'].
        -- cbn [app]. change (LF =? LF)%N with true. rewrite andb_true_r.
           destruct (c =? CR)%N.
           ++ cbn [flat_map]. now rewrite app_nil_r.
           ++ rewrite splitlines_from_LF. cbn [flat_map].
              now rewrite app_nil_r.
        -- cbn [app].
           destruct ((c =? CR)%N && (c' =? LF)%N);
             cbn [flat_map]; rewrite <- app_assoc; f_equal.
           ++ apply IH. simpl in *. lia.
           ++ apply (IH (c' :: rest')). simpl in *. lia.
      * apply IH. lia.
Qed.

(** Parsing distributes over concatenation with a newline in between:
    the entries of [a + "\n" + b] are those of [a] followed by those
    of [b]. *)
Theorem parse_cmd_output_newline (a b : str) :
  parse_cmd_output (a ++ [LF] ++ b) = parse_cmd_output a ++ parse_cmd_output b.
Proof.
  apply (parse_from_newline (List.length a) a [] b). auto.
Qed.

(* --------------------------------------------------------------------- *)
(** *** _flush_buffer *)
(* --------------------------------------------------------------------- *)

(** [_flush_buffer] never assigns to the connection; it touches the
    remote only when there is a shell whose poll says ready, and then
    makes one [recv]: it raises what that [recv] raises, and otherwise
    drops exactly one payload. *)
Theorem flush_buffer_outcome (self : SSHConnection) (w : World) :
  obj (_flush_buffer self w) = self
  /\ res (_flush_buffer self w)
     = (if flush_reads self w
        then match first_fault 1 (faults w) with
             | Some e => Raise e
             | None => Return tt
             end
        else Return tt)
  /\ chunks (world (_flush_buffer self w))
     = (if flush_reads self w && negb (is_some (first_fault 1 (faults w)))
        then tl (chunks w) else chunks w)
  /\ faults (world (_flush_buffer self w))
     = (if flush_reads self w then tl (faults w) else faults w).
Proof.
  destruct self as [h u p po b c [ch|]]; destruct w as [fs rs cs n];
    [|repeat split].
  destruct rs as [|[|] rs]; [repeat split | | repeat split].
  destruct fs as [|[e|] fs]; destruct cs as [|d cs]; repeat split.
Qed.

(* --------------------------------------------------------------------- *)
(** *** send_command on a connected object *)
(* --------------------------------------------------------------------- *)

Lemma first_fault_nil (n : nat) : first_fault n [] = None.
Proof. now destruct n. Qed.

Lemma received_nil (k : nat) : received k [] = [].
Proof. now destruct k. Qed.

Lemma sent_app (t1 t2 : list event) : sent (t1 ++ t2) = sent t1 ++ sent t2.
Proof. apply flat_map_app. Qed.

(** The receive loop: it goes round once per leading [True] of the poll
    script, raises the first fault a [recv] meets, and otherwise returns
    what it was given followed by the payloads received; it sends
    nothing. *)
Lemma recv_while_ready_outcome (ch : Channel) (nbytes : Z) (polls : list bool) :
  forall (output : str) (self : SSHConnection) (w : World),
    res (recv_while_ready polls ch nbytes output self w)
    = match first_fault (leading_trues polls) (faults w) with
      | Some e => Raise e
      | None =>
          Return (output ++ received (leading_trues polls) (chunks w))
      end
    /\ sent (trace (recv_while_ready polls ch nbytes output self w)) = [].
Proof.
  induction polls as [|[|] polls IH]; intros output self w.
  - cbn. now rewrite app_nil_r.
  - destruct w as [fs rs cs n].
    cbn [recv_while_ready leading_trues].
    destruct fs as [|[e|] fs]; [| now split |];
      destruct cs as [|d cs]; unfold bind; cbn;
      match goal with
      | |- context [recv_while_ready polls ch nbytes ?out self ?w'] =>
          destruct (IH out self w') as [Hres Hsent];
          destruct (recv_while_ready polls ch nbytes out self w')
            as [r s1 w1 t1]
      end;
      cbn [res trace faults chunks] in Hres, Hsent; subst r;
      cbn [res trace]; rewrite ?first_fault_nil, ?received_nil.
    all: split; [|exact Hsent].
    all: rewrite <- ?app_assoc, ?app_nil_r; reflexivity.
  - cbn. now rewrite app_nil_r.
Qed.

(** [send_command] on a connected object, step by step: the command and
    a newline go to [Channel.send]; a fault there is raised as it is;
    otherwise [time.sleep(wait_time)] runs, raising for a [wait_time]
    it refuses; otherwise the receive loop runs and what it collected
    is stripped. *)
Lemma send_command_connected
    (command : str) (wait_time : Q) (h u p : str) (po b : Z)
    (c : SSHClient) (ch : Channel)
    (fs : list (option exn)) (rs : list bool) (cs : list bytes) (n : nat) :
  send_command command wait_time
    (mkSSHConnection h u p po b (Some c) (Some ch)) (mkWorld fs rs cs n)
  = match fs with
    | Some e :: fs' =>
        mkOutcome (Raise e) (mkSSHConnection h u p po b (Some c) (Some ch))
          (mkWorld fs' rs cs n) [Lib (ChannelSend ch (command ++ [LF])) false]
    | _ =>
        if sleepable wait_time then
          match recv_while_ready rs ch b []
                  (mkSSHConnection h u p po b (Some c) (Some ch))
                  (mkWorld (tl fs) rs cs n) with
          | mkOutcome (Return out) s1 w1 t1 =>
              mkOutcome (Return (strip out)) s1 w1
                (Lib (ChannelSend ch (command ++ [LF])) true
                 :: Sleep wait_time :: t1)
          | mkOutcome (Raise e) s1 w1 t1 =>
              mkOutcome (Raise e) s1 w1
                (Lib (ChannelSend ch (command ++ [LF])) true
                 :: Sleep wait_time :: t1)
          end
        else
          mkOutcome (Raise (sleep_error wait_time))
            (mkSSHConnection h u p po b (Some c) (Some ch))
            (mkWorld (tl fs) rs cs n)
            [Lib (ChannelSend ch (command ++ [LF])) true]
    end.
Proof.
  destruct fs as [|[e|] fs]; [| reflexivity |];
    unfold send_command, bind, recv_loop, sleep; cbn;
    (destruct (sleepable wait_time); [|reflexivity]); cbn;
    match goal with
    | |- context [recv_while_ready rs ch b [] ?s ?w'] =>
        destruct (recv_while_ready rs ch b [] s w') as [[out|e] s1 w1 t1]
    end; cbn; now rewrite ?app_nil_r.
Qed.

Lemma leading_trues_repeat (k : nat) (rest : list bool) :
  leading_trues (repeat true k ++ false :: rest) = k.
Proof. induction k as [|k IH]; cbn; [reflexivity | now rewrite IH]. Qed.

(** On a connected object whose channel says ready [k] times and then
    not ready, the result of [send_command] is decided in this order: a
    fault of the [send] is raised unchanged; else a [wait_time] that
    [time.sleep] refuses makes it raise ([ValueError] when negative,
    [OverflowError] when out of range); else the first fault met by one
    of the [k] [recv] calls is raised unchanged; else the value returned
    is the concatenation of the [k] payloads received, stripped. *)
Theorem send_command_result
    (command : str) (wait_time : Q) (self : SSHConnection) (w : World)
    (k : nat) (rest : list bool) :
  is_connected self = true ->
  readies w = repeat true k ++ false :: rest ->
  res (send_command command wait_time self w)
  = match first_fault 1 (faults w) with
    | Some e => Raise e
    | None =>
        if sleepable wait_time then
          match first_fault k (tl (faults w)) with
          | Some e => Raise e
          | None => Return (strip (received k (chunks w)))
          end
        else Raise (sleep_error wait_time)
    end.
Proof.
  destruct self as [h u p po b [c|] [ch|]]; try discriminate. intros _.
  destruct w as [fs rs cs n]. cbn [readies faults chunks]. intros Hrs.
  rewrite send_command_connected.
  destruct fs as [|[e|] fs]; [| reflexivity |]; cbn [first_fault tl];
    (destruct (sleepable wait_time); [|reflexivity]);
    match goal with
    | |- context [recv_while_ready rs ch b [] ?s ?w'] =>
        destruct (recv_while_ready_outcome ch b rs [] s w') as [Hres _];
        destruct (recv_while_ready rs ch b [] s w') as [r s1 w1 t1]
    end; cbn [res faults chunks tl] in Hres; subst r;
    rewrite Hrs, leading_trues_repeat.
  - rewrite first_fault_nil. reflexivity.
  - destruct (first_fault k fs); reflexivity.
Qed.

Lemma send_command_result_witness :
  is_connected connected0 = true
  /\ readies chatty = repeat true 2 ++ false :: []
  /\ res (send_command (lit "uname -a") default_wait_time connected0 chatty)
     = match first_fault 1 (faults chatty) with
       | Some e => Raise e
       | None =>
           if sleepable default_wait_time then
             match first_fault 2 (tl (faults chatty)) with
             | Some e => Raise e
             | None => Return (strip (received 2 (chunks chatty)))
             end
           else Raise (sleep_error default_wait_time)
       end.
Proof.
  split; [reflexivity|]. split; [reflexivity|].
  apply (send_command_result (lit "uname -a") default_wait_time
                             connected0 chatty 2 []);
    reflexivity.
Defined.

Example send_command_talkative :
  res (send_command (lit "uname -a") default_wait_time connected0 talkative)
  = Return (lit "Linux box").
Proof. reflexivity. Qed.

Example send_command_negative_wait :
  res (send_command (lit "uname -a") (-1) connected0 talkative)
  = Raise sleep_negative.
Proof. reflexivity. Qed.

(** What [send_command] writes to the channel, and the shape of what it
    returns. *)
Lemma send_command_effects
    (command : str) (wait_time : Q) (self : SSHConnection) (w : World) :
  sent (trace (send_command command wait_time self w))
  = (if is_connected self then [command ++ [LF]] else [])
  /\ match res (send_command command wait_time self w) with
     | Return v => first_is_space v = false /\ last_is_space v = false
     | Raise _ => True
     end.
Proof.
  split.
  - destruct (is_connected self) eqn:Hc.
    + destruct self as [h u p po b [c|] [ch|]]; try discriminate.
      destruct w as [fs rs cs n]. rewrite send_command_connected.
      destruct fs as [|[e|] fs]; [| reflexivity |];
        (destruct (sleepable wait_time); [|reflexivity]);
        match goal with
        | |- context [recv_while_ready rs ch b [] ?s ?w'] =>
            destruct (recv_while_ready_outcome ch b rs [] s w') as [_ Hsent];
            destruct (recv_while_ready rs ch b [] s w') as [[out|e] s1 w1 t1]
        end; cbn [trace] in *; unfold sent in *; cbn; now rewrite Hsent.
    + unfold send_command, bind, get. now rewrite Hc.
  - destruct (is_connected self) eqn:Hc.
    + destruct self as [h u p po b [c|] [ch|]]; try discriminate.
      destruct w as [fs rs cs n]. rewrite send_command_connected.
      destruct fs as [|[e|] fs]; [| exact I |];
        (destruct (sleepable wait_time); [|exact I]);
        match goal with
        | |- context [recv_while_ready rs ch b [] ?s ?w'] =>
            destruct (recv_while_ready rs ch b [] s w') as [[out|e] s1 w1 t1]
        end; cbn [res]; try exact I; split;
        [apply strip_first | apply strip_last | apply strip_first
         | apply strip_last].
    + unfold send_command, bind, get. rewrite Hc. exact I.
Qed.

(** [send_command] hands exactly one string to [Channel.send], the
    command followed by a newline, when the object is connected, and
    none otherwise. *)
Theorem send_command_sends
    (command : str) (wait_time : Q) (self : SSHConnection) (w : World) :
  sent (trace (send_command command wait_time self w))
  = if is_connected self then [command ++ [LF]] else [].
Proof.
  destruct (is_connected self) eqn:Hc.
  - destruct self as [h u p po b [c|] [ch|]]; try discriminate.
    destruct w as [fs rs cs n]. rewrite send_command_connected.
    destruct fs as [|[e|] fs]; [| reflexivity |];
      (destruct (sleepable wait_time); [|reflexivity]);
      match goal with
      | |- context [recv_while_ready rs ch b [] ?s ?w'] =>
          destruct (recv_while_ready_outcome ch b rs [] s w') as [_ Hsent];
          destruct (recv_while_ready rs ch b [] s w') as [[out|e] s1 w1 t1]
      end; cbn [trace] in *; unfold sent in *; cbn; now rewrite Hsent.
  - unfold send_command, bind, get. now rewrite Hc.
Qed.

(* --------------------------------------------------------------------- *)
(** *** connect: state afterwards, what it sends, how it authenticates *)
(* --------------------------------------------------------------------- *)

(** After [connect], returned or raised, [is_connected] holds exactly
    when [SSHClient.connect] and [invoke_shell] both succeeded or a
    shell handle was already there: [connect] does not undo its
    assignments when a later step fails. *)
Theorem connect_is_connected (dp : bool) (self : SSHConnection) (w : World) :
  is_connected (obj (connect dp self w))
  = match first_fault 2 (faults w) with
    | None => true
    | Some _ => is_some (_shell self)
    end.
Proof.
  destruct self as [h u p po b c [ch|]];
    connect_cases w; destruct dp; destruct cs; reflexivity.
Qed.

(** [connect] writes to the channel only to disable pagination: the one
    string ["terminal length 0\n"], when asked to and when every step
    before it succeeded; nothing otherwise. *)
Theorem connect_sends (dp : bool) (self : SSHConnection) (w : World) :
  sent (trace (connect dp self w))
  = if dp && negb (is_some (first_fault (connect_calls false w) (faults w)))
    then [lit "terminal length 0" ++ [LF]]
    else [].
Proof.
  connect_cases w; destruct dp; destruct cs; reflexivity.
Qed.

(** [connect] always starts the same way: a new client, the host-key
    policy set on it, then [SSHClient.connect] with the stored host,
    port, user name and password and without looking for keys. *)
Theorem connect_opening (dp : bool) (self : SSHConnection) (w : World) :
  firstn 3 (trace (connect dp self w))
  = [Lib (NewSSHClient (Client (next_id w))) true;
     Lib (SetMissingHostKeyPolicy (Client (next_id w))) true;
     Lib (ClientConnect (Client (next_id w)) (host self) (port self)
                        (username self) (password self) false)
         (negb (is_some (first_fault 1 (faults w))))].
Proof.
  connect_cases w; destruct dp; destruct cs; reflexivity.
Qed.

Lemma connect_sends_false (self : SSHConnection) (w : World) :
  sent (trace (connect false self w)) = [].
Proof.
  connect_cases w; destruct cs; reflexivity.
Qed.

Lemma connect_config (dp : bool) (self : SSHConnection) (w : World) :
  config (obj (connect dp self w)) = config self.
Proof.
  connect_cases w; destruct dp; destruct cs; reflexivity.
Qed.

(* --------------------------------------------------------------------- *)
(** *** reconnect: edge cases, what it sends, configuration *)
(* --------------------------------------------------------------------- *)

Lemma range_empty (lo hi : Z) : (hi <= lo)%Z -> range lo hi = [].
Proof.
  intros H. unfold range.
  replace (Z.to_nat (hi - lo)) with 0%nat by lia. reflexivity.
Qed.

(** With [retry_count <= 0], [reconnect] makes no attempt: it prints its
    announcement and raises, without disconnecting and without a call to
    the remote. *)
Theorem reconnect_no_attempt
    (rc : Z) (ri : Q) (self : SSHConnection) (w : World) :
  (rc <= 0)%Z ->
  reconnect rc ri self w
  = mkOutcome (Raise reconnect_exhausted) self w
              [Print (reconnecting_line self)].
Proof.
  intros H. rewrite reconnect_outcome, range_empty by lia. reflexivity.
Qed.

Lemma reconnect_no_attempt_witness :
  (0 <= 0)%Z
  /\ reconnect 0 default_retry_interval connected0 quiet
     = mkOutcome (Raise reconnect_exhausted) connected0 quiet
                 [Print (reconnecting_line connected0)].
Proof.
  split; [lia|].
  apply (reconnect_no_attempt 0 default_retry_interval connected0 quiet). lia.
Defined.

Lemma sent_disconnect_trace (self : SSHConnection) :
  sent (disconnect_trace self) = [].
Proof.
  unfold disconnect_trace.
  now destruct (_shell self), (_ssh_client self).
Qed.

Lemma disconnected_config (self : SSHConnection) :
  config (disconnected self) = config self.
Proof. reflexivity. Qed.

Lemma reconnect_loop_quiet (ri : Q) (items : list Z) :
  forall (self : SSHConnection) (w : World),
    sent (trace (for_in items (reconnect_attempt ri) self w)) = []
    /\ config (obj (for_in items (reconnect_attempt ri) self w)) = config self.
Proof.
  induction items as [|a items IH]; intros self w; [now split|].
  cbn [for_in]. unfold bind.
  rewrite reconnect_attempt_outcome.
  pose proof (connect_sends_false (disconnected self) w) as Hs.
  pose proof (connect_config false (disconnected self) w) as Hc.
  rewrite disconnected_config in Hc.
  destruct (connect false (disconnected self) w) as [[[]|e] s1 w1 t1];
    cbn [trace obj] in Hs, Hc.
  - cbn [ret trace obj]. split; [|exact Hc].
    unfold sent in *. cbn.
    fold (sent (disconnect_trace self)).
    now rewrite sent_disconnect_trace, Hs.
  - destruct (sleepable ri).
    + destruct (IH s1 w1) as [IHs IHc].
      destruct (for_in items (reconnect_attempt ri) s1 w1)
        as [[[v|]|e'] s2 w2 t2]; cbn [trace obj] in *;
        (split; [|congruence]);
        unfold sent in *; cbn;
        fold (sent (disconnect_trace self));
        now rewrite sent_disconnect_trace, Hs, IHs.
    + cbn [trace obj]. split; [|exact Hc].
      unfold sent in *. cbn.
      fold (sent (disconnect_trace self)).
      now rewrite sent_disconnect_trace, Hs.
Qed.

(** [reconnect] never writes to the channel: it calls [connect] without
    [disable_pagination], so a session that had disabled pagination is
    reconnected without it. *)
Theorem reconnect_sends_nothing
    (rc : Z) (ri : Q) (self : SSHConnection) (w : World) :
  sent (trace (reconnect rc ri self w)) = [].
Proof.
  rewrite reconnect_outcome.
  destruct (reconnect_loop_quiet ri (range 1 (rc + 1)) self w) as [H _].
  destruct (for_in (range 1 (rc + 1)) (reconnect_attempt ri) self w)
    as [[[v|]|e] s1 w1 t]; exact H.
Qed.

Lemma reconnect_quiet (rc : Z) (ri : Q) (self : SSHConnection) (w : World) :
  sent (trace (reconnect rc ri self w)) = []
  /\ config (obj (reconnect rc ri self w)) = config self.
Proof.
  rewrite reconnect_outcome.
  pose proof (reconnect_loop_quiet ri (range 1 (rc + 1)) self w) as H.
  destruct (for_in (range 1 (rc + 1)) (reconnect_attempt ri) self w)
    as [[[v|]|e] s1 w1 t]; exact H.
Qed.

Lemma flush_buffer_keeps : keeps_self _flush_buffer.
Proof.
  intros self w.
  destruct self as [h u p po b c [ch|]]; destruct w as [fs rs cs n];
    [|reflexivity].
  destruct rs as [|[|] rs]; try reflexivity.
  destruct fs as [|[e|] fs]; destruct cs as [|d cs]; reflexivity.
Qed.

(** No method of [SSHConnection] changes the configuration (host, user
    name, password, port, buffer size), whether it returns or raises. *)
Theorem config_preserved (self : SSHConnection) (w : World) :
  (forall dp, config (obj (connect dp self w)) = config self)
  /\ (forall rc ri, config (obj (reconnect rc ri self w)) = config self)
  /\ (forall command wait_time,
        config (obj (send_command command wait_time self w)) = config self)
  /\ config (obj (disconnect self w)) = config self
  /\ config (obj (_flush_buffer self w)) = config self.
Proof.
  split; [intros dp; apply connect_config|].
  split; [intros rc ri; apply reconnect_quiet|].
  split; [intros command wt; now rewrite keeps_send_command|].
  split; [now rewrite disconnect_outcome|].
  now rewrite flush_buffer_keeps.
Qed.

(* --------------------------------------------------------------------- *)
(** *** ShellInterface: construction and finalisation *)
(* --------------------------------------------------------------------- *)

Lemma connect_raise_class (dp : bool) (self : SSHConnection) (w : World) :
  match res (connect dp self w) with
  | Return _ => is_connected (obj (connect dp self w)) = true
  | Raise e => exn_cls e = ConnectionError
  end.
Proof.
  pose proof (connect_handles dp self w) as H.
  rewrite connect_result in *.
  now destruct (first_fault _ _).
Qed.

(** Building a [ShellInterface] on a connection that is already
    connected does nothing; on any other connection it calls [connect]
    once, and then either the connection is connected or the
    construction fails with [ConnectionError].  The prompt and the
    configuration are the ones given. *)
Theorem ShellInterface_init_outcome
    (conn : SSHConnection) (pr : str) (w : World) :
  prompt (obj (ShellInterface_init conn pr w)) = pr
  /\ config (connection (obj (ShellInterface_init conn pr w))) = config conn
  /\ if is_connected conn
     then ShellInterface_init conn pr w
          = mkOutcome (Return tt) (mkShellInterface conn pr) w []
     else calls_of M_connect (trace (ShellInterface_init conn pr w))
          = [returned (res (ShellInterface_init conn pr w))]
          /\ match res (ShellInterface_init conn pr w) with
             | Return _ =>
                 is_connected (connection (obj (ShellInterface_init conn pr w)))
                 = true
             | Raise e => exn_cls e = ConnectionError
             end.
Proof.
  unfold ShellInterface_init, _connect, bind, get, on_connection, call.
  cbn -[connect is_connected].
  destruct (is_connected conn); [now repeat split|].
  cbn -[connect].
  pose proof (connect_raise_class false conn w) as Hk.
  pose proof (connect_config false conn w) as Hc.
  destruct (connect false conn w) as [[[]|e] s1 w1 t1];
    cbn [res obj] in Hk, Hc; cbn; auto.
Qed.

(** [__del__] never raises: it leaves the connection with both handles
    null, closing each handle that was open once, and does not touch the
    prompt, the configuration or the remote's script; a [send_command]
    after it raises the not-active [ConnectionError] without any
    effect. *)
Theorem ShellInterface_del_outcome (self : ShellInterface) (w : World) :
  ShellInterface_del self w
  = mkOutcome (Return tt)
      (mkShellInterface (disconnected (connection self)) (prompt self)) w
      [Call M_disconnect (disconnect_trace (connection self)) true]
  /\ is_connected (connection (obj (ShellInterface_del self w))) = false
  /\ forall command wait_time w',
       send_command command wait_time
         (connection (obj (ShellInterface_del self w))) w'
       = mkOutcome (Raise not_active)
           (connection (obj (ShellInterface_del self w))) w' [].
Proof.
  unfold ShellInterface_del, on_connection, call.
  rewrite disconnect_outcome. cbn [obj connection].
  repeat split.
Qed.

(* --------------------------------------------------------------------- *)
(** *** run_cmd: first success, edge cases, exits *)
(* --------------------------------------------------------------------- *)

Lemma range_cons (lo hi : Z) :
  (lo < hi)%Z -> range lo hi = lo :: range (lo + 1) hi.
Proof.
  intros H. unfold range.
  replace (Z.to_nat (hi - lo)) with (S (Z.to_nat (hi - (lo + 1)))) by lia.
  cbn [seq map]. f_equal; [lia|].
  rewrite <- seq_shift, map_map.
  apply map_ext. intros i. lia.
Qed.

(** When the first [send_command] returns, [run_cmd] returns its value
    after that single attempt, without reconnecting and without
    touching the connection object, whatever [retry_count >= 0] is. *)
Theorem run_cmd_first_success
    (command : str) (rc : Z) (self : ShellInterface) (w : World) (out : str) :
  (0 <= rc)%Z ->
  res (send_command command default_wait_time (connection self) w)
  = Return out ->
  res (run_cmd command rc self w) = Return out
  /\ calls_of M_send_command (trace (run_cmd command rc self w)) = [true]
  /\ calls_of M_reconnect (trace (run_cmd command rc self w)) = []
  /\ obj (run_cmd command rc self w) = self
  /\ world (run_cmd command rc self w)
     = world (send_command command default_wait_time (connection self) w).
Proof.
  intros Hrc Hs.
  rewrite run_cmd_outcome.
  rewrite range_cons by (destruct (rc =? 0)%Z eqn:E; lia).
  cbn [for_in]. unfold bind. rewrite run_cmd_attempt_outcome.
  pose proof (keeps_send_command command default_wait_time
                (connection self) w) as Hk.
  destruct (send_command command default_wait_time (connection self) w)
    as [[v|e] c1 w1 t1]; cbn [res obj] in Hs, Hk; [|discriminate].
  injection Hs as ->. subst c1. cbn.
  repeat split. now destruct self.
Qed.

Lemma run_cmd_first_success_witness :
  (0 <= 0)%Z
  /\ res (send_command (lit "uname -a") default_wait_time
            (connection (mkShellInterface connected0 (lit "$"))) talkative)
     = Return (lit "Linux box")
  /\ res (run_cmd (lit "uname -a") 0
            (mkShellInterface connected0 (lit "$")) talkative)
     = Return (lit "Linux box")
  /\ calls_of M_send_command
       (trace (run_cmd (lit "uname -a") 0
                 (mkShellInterface connected0 (lit "$")) talkative)) = [true]
  /\ calls_of M_reconnect
       (trace (run_cmd (lit "uname -a") 0
                 (mkShellInterface connected0 (lit "$")) talkative)) = []
  /\ obj (run_cmd (lit "uname -a") 0
            (mkShellInterface connected0 (lit "$")) talkative)
     = mkShellInterface connected0 (lit "$")
  /\ world (run_cmd (lit "uname -a") 0
              (mkShellInterface connected0 (lit "$")) talkative)
     = world (send_command (lit "uname -a") default_wait_time
                (connection (mkShellInterface connected0 (lit "$")))
                talkative).
Proof.
  split; [lia|]. split; [reflexivity|].
  apply (run_cmd_first_success (lit "uname -a") 0
           (mkShellInterface connected0 (lit "$")) talkative (lit "Linux box"));
    [lia | reflexivity].
Defined.

(** With a negative [retry_count], [run_cmd] makes no attempt at all: it
    raises [RuntimeError] at once, with no effect. *)
Theorem run_cmd_negative
    (command : str) (rc : Z) (self : ShellInterface) (w : World) :
  (rc < 0)%Z ->
  run_cmd command rc self w = mkOutcome (Raise (run_cmd_failed rc)) self w []
  /\ exn_cls (run_cmd_failed rc) = RuntimeError.
Proof.
  intros H. split; [|reflexivity].
  rewrite run_cmd_outcome.
  replace (rc =? 0)%Z with false by (symmetry; apply Z.eqb_neq; lia).
  rewrite range_empty by lia. reflexivity.
Qed.

Lemma run_cmd_negative_witness :
  (-1 < 0)%Z
  /\ run_cmd (lit "uname -a") (-1) shell0 quiet
     = mkOutcome (Raise (run_cmd_failed (-1))) shell0 quiet []
  /\ exn_cls (run_cmd_failed (-1)) = RuntimeError.
Proof.
  split; [lia|].
  apply (run_cmd_negative (lit "uname -a") (-1) shell0 quiet). lia.
Defined.

Lemma sent_call (m : method) (inner : list event) (ok : bool) (t : list event) :
  sent (Call m inner ok :: t) = sent inner ++ sent t.
Proof. reflexivity. Qed.

Lemma sent_print (line : str) (t : list event) : sent (Print line :: t) = sent t.
Proof. reflexivity. Qed.

(** The loop of [run_cmd]: it keeps the prompt and the configuration,
    writes nothing but the command line to the channel, and a value it
    returns is stripped. *)
Lemma run_cmd_loop_keeps (command : str) (items : list Z) :
  forall (self : ShellInterface) (w : World),
    prompt (obj (for_in items (run_cmd_attempt command) self w)) = prompt self
    /\ config (connection (obj (for_in items (run_cmd_attempt command) self w)))
       = config (connection self)
    /\ (exists k, (k <= List.length items)%nat
          /\ sent (trace (for_in items (run_cmd_attempt command) self w))
             = repeat (command ++ [LF]) k)
    /\ match res (for_in items (run_cmd_attempt command) self w) with
       | Return (Some v) => first_is_space v = false /\ last_is_space v = false
       | _ => True
       end.
Proof.
  induction items as [|a items IH]; intros self w.
  - cbn. repeat split. exists 0%nat. now split.
  - cbn [for_in]. unfold bind. rewrite run_cmd_attempt_outcome.
    pose proof (keeps_send_command command default_wait_time
                  (connection self) w) as Hk.
    destruct (send_command_effects command default_wait_time
                (connection self) w) as [Hs Hv].
    destruct (send_command command default_wait_time (connection self) w)
      as [[out|e] c1 w1 t1]; cbn [res obj trace] in Hk, Hs, Hv; subst c1.
    + cbn [res obj trace prompt connection ret app].
      repeat split; try apply Hv.
      exists (if is_connected (connection self) then 1%nat else 0%nat).
      rewrite sent_call, Hs. cbn [List.length].
      destruct (is_connected (connection self)); split; cbn; auto; lia.
    + destruct (reconnect_quiet default_retry_count default_retry_interval
                  (connection self) w1) as [Hr Hc].
      destruct (reconnect default_retry_count default_retry_interval
                  (connection self) w1) as [[[]|e'] c2 w2 t2];
        cbn [obj trace] in Hc, Hr.
      * destruct (IH (mkShellInterface c2 (prompt self)) w2)
          as (Hp & Hcf & (k & Hle & Hsent) & Hval).
        cbn [prompt connection] in Hp, Hcf.
        destruct (for_in items (run_cmd_attempt command)
                    (mkShellInterface c2 (prompt self)) w2)
          as [[[v|]|e''] s3 w3 t3];
          cbn [res obj trace] in *;
          (split; [exact Hp|]); (split; [congruence|]);
          (split; [|try exact Hval; exact I]);
          exists ((if is_connected (connection self) then 1 else 0) + k)%nat;
          rewrite sent_app, sent_call, Hs, sent_print, sent_call, Hr, Hsent;
          destruct (is_connected (connection self)); cbn;
          (split; [lia | reflexivity]).
      * cbn [res obj trace prompt connection].
        repeat split; [exact Hc|].
        exists (if is_connected (connection self) then 1%nat else 0%nat).
        rewrite sent_call, Hs, sent_print, sent_call, Hr. cbn [List.length].
        destruct (is_connected (connection self)); split; cbn; auto; lia.
Qed.

Lemma run_cmd_loop_of (command : str) (rc : Z) (self : ShellInterface) (w : World) :
  obj (run_cmd command rc self w)
  = obj (for_in (range 0 (if (rc =? 0)%Z then 1%Z else rc))
                (run_cmd_attempt command) self w)
  /\ trace (run_cmd command rc self w)
     = trace (for_in (range 0 (if (rc =? 0)%Z then 1%Z else rc))
                     (run_cmd_attempt command) self w)
  /\ match res (for_in (range 0 (if (rc =? 0)%Z then 1%Z else rc))
                       (run_cmd_attempt command) self w) with
     | Return (Some v) => res (run_cmd command rc self w) = Return v
     | Return None => res (run_cmd command rc self w) = Raise (run_cmd_failed rc)
     | Raise e => res (run_cmd command rc self w) = Raise e
     end.
Proof.
  rewrite run_cmd_outcome.
  destruct (for_in _ (run_cmd_attempt command) self w)
    as [[[v|]|e] s1 w1 t]; repeat split.
Qed.

(** [run_cmd] has three exits: it returns a value that neither starts
    nor ends with whitespace, or it raises its own [RuntimeError], or it
    raises the [ConnectionError] of an exhausted [reconnect].  The
    exception of a failed [send_command] never leaves it. *)
Theorem run_cmd_exits
    (command : str) (rc : Z) (self : ShellInterface) (w : World) :
  match res (run_cmd command rc self w) with
  | Return v => first_is_space v = false /\ last_is_space v = false
  | Raise e =>
      (e = run_cmd_failed rc /\ exn_cls e = RuntimeError)
      \/ (e = reconnect_exhausted /\ exn_cls e = ConnectionError)
  end.
Proof.
  pose proof (run_cmd_summary command rc self w) as Hsum.
  destruct (run_cmd_loop_of command rc self w) as (_ & _ & Hres).
  destruct (run_cmd_loop_keeps command
              (range 0 (if (rc =? 0)%Z then 1%Z else rc)) self w)
    as (_ & _ & _ & Hval).
  destruct (res (for_in _ (run_cmd_attempt command) self w)) as [[v|]|e].
  - now rewrite Hres.
  - rewrite Hres. now left.
  - destruct (run_cmd command rc self w) as [[v|e'] s1 w1 t];
      cbn [res] in *; [discriminate|].
    destruct Hsum as [(-> & _) | (-> & _)]; [now left | now right].
Qed.

(** [run_cmd] keeps the prompt and the configuration of its connection,
    and everything it writes to the channel is the command followed by a
    newline, at most once per attempt. *)
Theorem run_cmd_keeps
    (command : str) (rc : Z) (self : ShellInterface) (w : World) :
  prompt (obj (run_cmd command rc self w)) = prompt self
  /\ config (connection (obj (run_cmd command rc self w)))
     = config (connection self)
  /\ exists k, (k <= run_cmd_attempts rc)%nat
       /\ sent (trace (run_cmd command rc self w))
          = repeat (command ++ [LF]) k.
Proof.
  destruct (run_cmd_loop_of command rc self w) as (Ho & Ht & _).
  destruct (run_cmd_loop_keeps command
              (range 0 (if (rc =? 0)%Z then 1%Z else rc)) self w)
    as (Hp & Hc & (k & Hk & Hs) & _).
  rewrite Ho, Ht. repeat split; auto.
  exists k. split; [|exact Hs].
  rewrite length_range, Z.sub_0_r in Hk. exact Hk.
Qed.

(* --------------------------------------------------------------------- *)
(** *** reconnect: no client is lost *)
(* --------------------------------------------------------------------- *)

Lemma connect_clients (dp : bool) (self : SSHConnection) (w : World) :
  opened (trace (connect dp self w)) = held (obj (connect dp self w))
  /\ closed (trace (connect dp self w)) = [].
Proof.
  connect_cases w; destruct dp; destruct cs; split; reflexivity.
Qed.

Lemma disconnect_clients (self : SSHConnection) :
  opened (disconnect_trace self) = []
  /\ closed (disconnect_trace self) = held self.
Proof.
  unfold disconnect_trace, held.
  destruct (_shell self), (_ssh_client self); split; reflexivity.
Qed.

Lemma opened_app (t1 t2 : list event) :
  opened (t1 ++ t2) = opened t1 ++ opened t2.
Proof. apply flat_map_app. Qed.

Lemma closed_app (t1 t2 : list event) :
  closed (t1 ++ t2) = closed t1 ++ closed t2.
Proof. apply flat_map_app. Qed.

Lemma reconnect_attempt_clients
    (ri : Q) (attempt : Z) (self : SSHConnection) (w : World) :
  opened (trace (reconnect_attempt ri attempt self w))
  = held (obj (reconnect_attempt ri attempt self w))
  /\ closed (trace (reconnect_attempt ri attempt self w)) = held self.
Proof.
  rewrite reconnect_attempt_outcome.
  destruct (connect_clients false (disconnected self) w) as [Ho Hc].
  destruct (disconnect_clients self) as [Hdo Hdc].
  destruct (connect false (disconnected self) w) as [[[]|e] s1 w1 t1];
    [|destruct (sleepable ri)];
    cbn [trace obj] in *; unfold opened, closed in *; cbn;
    rewrite Ho, Hc, Hdo, Hdc, ?app_nil_r; split; reflexivity.
Qed.

Lemma reconnect_loop_clients (ri : Q) (items : list Z) :
  forall (self : SSHConnection) (w : World),
    held self ++ opened (trace (for_in items (reconnect_attempt ri) self w))
    = closed (trace (for_in items (reconnect_attempt ri) self w))
      ++ held (obj (for_in items (reconnect_attempt ri) self w)).
Proof.
  induction items as [|a items IH]; intros self w.
  - cbn. now rewrite app_nil_r.
  - cbn [for_in]. unfold bind.
    destruct (reconnect_attempt_clients ri a self w) as [Ho Hc].
    destruct (reconnect_attempt ri a self w) as [[[v|]|e] s1 w1 t1];
      cbn [trace obj] in Ho, Hc.
    + cbn [ret trace obj]. now rewrite app_nil_r, Ho, Hc.
    + specialize (IH s1 w1).
      destruct (for_in items (reconnect_attempt ri) s1 w1)
        as [r s2 w2 t2]; cbn [trace obj] in *.
      now rewrite opened_app, closed_app, Ho, Hc, <- app_assoc, IH, app_assoc.
    + cbn [trace obj]. now rewrite Ho, Hc.
Qed.

(** [reconnect] loses no client: the client held before together with
    the clients it creates are, in order, the clients it closes followed
    by the client held afterwards; so every client of a failed attempt
    is closed by the next attempt, and the last one stays in
    [_ssh_client], whether [reconnect] returns or raises. *)
Theorem reconnect_client_accounting
    (rc : Z) (ri : Q) (self : SSHConnection) (w : World) :
  held self ++ opened (trace (reconnect rc ri self w))
  = closed (trace (reconnect rc ri self w))
    ++ held (obj (reconnect rc ri self w)).
Proof.
  rewrite reconnect_outcome.
  pose proof (reconnect_loop_clients ri (range 1 (rc + 1)) self w) as H.
  destruct (for_in (range 1 (rc + 1)) (reconnect_attempt ri) self w)
    as [[[v|]|e] s1 w1 t]; exact H.
Qed.

(** [connect] closes nothing and always installs a newly created
    client, also when it raises: a client the connection held before is
    replaced without being closed. *)
Theorem connect_replaces_client (dp : bool) (self : SSHConnection) (w : World) :
  closed (trace (connect dp self w)) = []
  /\ opened (trace (connect dp self w)) = [Client (next_id w)]
  /\ _ssh_client (obj (connect dp self w)) = Some (Client (next_id w)).
Proof.
  connect_cases w; destruct dp; destruct cs; repeat split.
Qed.
